(** * The module bundler of the Amazon scraper extension (bundle.py)

    A shallow embedding of [bundle.py]: the text substitutions of
    [remove_imports_exports] (three [re.sub] calls under [re.MULTILINE]) and
    the concatenation loop of [bundle_modules], with theorems about both.

    Python strings are sequences of Unicode code points: a text is a list of
    code points, each an [N].  The regular expressions are embedded as the
    operator sequences the [re] module compiles them to, and run by a
    backtracking matcher with the priorities of that module (greedy runs
    longest first, lazy runs shortest first).  [re.sub] is the scan of
    Python 3.7 and later: leftmost matches that do not overlap, an empty
    match allowed next to a non-empty one.

    The disk is a finite map from paths to the text [read()] returns for
    them; a path is either absent or a readable text file, and reading an
    absent path is the one failure of the model.  Paths are POSIX paths,
    told apart by their spelling.  A second embedding of [bundle_modules]
    takes the file system as the three calls the run makes, each of which the
    operating system may refuse; the disk is one instance of it.
    [print] appends a line to the standard output.  The upper-casing of code
    points outside ASCII belongs to the interpreter and is a parameter. *)

From Stdlib Require Import NArith String Ascii DecimalString Lia.
From stdpp Require Import base list gmap.

Local Open Scope N_scope.
Local Open Scope nat_scope.

Abbreviation text := (list N).

(** ** Texts *)

Fixpoint codes (s : string) : text :=
  match s with
  | EmptyString => []
  | String a s' => N_of_ascii a :: codes s'
  end.

Definition LF : N := 10%N.
Definition DQUOTE : N := 34%N.
Definition SQUOTE : N := 39%N.

(** [str.isspace] on one code point, which is also what [\s] matches in a
    [str] pattern (CPython's [Py_UNICODE_ISSPACE]). *)
Definition is_space (c : N) : bool :=
  ((9 <=? c) && (c <=? 13) || (28 <=? c) && (c <=? 32)
   || (c =? 133) || (c =? 160) || (c =? 5760)
   || (8192 <=? c) && (c <=? 8202)
   || (c =? 8232) || (c =? 8233) || (c =? 8239) || (c =? 8287)
   || (c =? 12288))%N.

(** [.] without [re.DOTALL]: any code point but the line feed. *)
Definition not_newline (c : N) : bool := negb (c =? LF)%N.

(** The set of the two quote characters, single and double. *)
Definition is_quote (c : N) : bool := ((c =? SQUOTE) || (c =? DQUOTE))%N.

Definition is_char (a : N) (c : N) : bool := (c =? a)%N.
Definition not_char (a : N) (c : N) : bool := negb (c =? a)%N.

(** ** The [re] operators the three patterns use *)

Module Re.

(** One operator of a compiled pattern.  Every repetition in [bundle.py]
    has a single-character body, the case [re] compiles to its
    [MAX_REPEAT_ONE] and [MIN_REPEAT_ONE] operators; [hi = None] is an
    unbounded repetition. *)
Inductive op :=
| At_beginning_line                                   (* ^  with re.MULTILINE *)
| At_end_line                                         (* $  with re.MULTILINE *)
| In_set (cls : N -> bool)                            (* a literal, a set, \s or . *)
| Max_repeat (lo : nat) (hi : option nat) (cls : N -> bool)   (* greedy *)
| Min_repeat (lo : nat) (hi : option nat) (cls : N -> bool).  (* lazy *)

Definition pattern := list op.

(** A literal text: its code points one after the other. *)
Definition literal_codes (w : text) : pattern :=
  map (fun a => In_set (is_char a)) w.

Definition literal (s : string) : pattern := literal_codes (codes s).

(** [^] under [re.MULTILINE]: at the start of the text or just after a
    line feed.  [prev] is the code point before the position. *)
Definition at_bol (prev : option N) : bool :=
  match prev with
  | None => true
  | Some c => (c =? LF)%N
  end.

(** [$] under [re.MULTILINE]: at the end of the text or just before a
    line feed. *)
Definition at_eol (s : text) : bool :=
  match s with
  | [] => true
  | c :: _ => (c =? LF)%N
  end.

Definition may_repeat (hi : option nat) : bool :=
  match hi with
  | Some O => false
  | _ => true
  end.

Definition one_less (hi : option nat) : option nat :=
  match hi with
  | Some n => Some (pred n)
  | None => None
  end.

(** The continuation of a match: given the code point before the current
    position and the text from it on, the text left after the whole match,
    if the rest of the pattern matches. *)
Definition cont := option N -> text -> option text.

(** Greedy repetition: take as many code points as possible, then give
    them back one at a time until the continuation succeeds. *)
Fixpoint max_repeat (cls : N -> bool) (k : cont) (lo : nat) (hi : option nat)
    (prev : option N) (s : text) : option text :=
  let stop := match lo with O => k prev s | S _ => None end in
  match s with
  | c :: s' =>
      if cls c && may_repeat hi then
        match max_repeat cls k (pred lo) (one_less hi) (Some c) s' with
        | Some r => Some r
        | None => stop
        end
      else stop
  | [] => stop
  end.

(** Lazy repetition: try the continuation first, take one more code point
    only when it fails. *)
Fixpoint min_repeat (cls : N -> bool) (k : cont) (lo : nat) (hi : option nat)
    (prev : option N) (s : text) : option text :=
  let more :=
    match s with
    | c :: s' =>
        if cls c && may_repeat hi
        then min_repeat cls k (pred lo) (one_less hi) (Some c) s'
        else None
    | [] => None
    end in
  match lo with
  | O => match k prev s with
         | Some r => Some r
         | None => more
         end
  | S _ => more
  end.

(** The backtracking matcher: the operators in sequence, each passing the
    position it reaches to the rest of the pattern. *)
Fixpoint run (p : pattern) (k : cont) (prev : option N) (s : text) : option text :=
  match p with
  | [] => k prev s
  | At_beginning_line :: p' => if at_bol prev then run p' k prev s else None
  | At_end_line :: p' => if at_eol s then run p' k prev s else None
  | In_set cls :: p' =>
      match s with
      | c :: s' => if cls c then run p' k (Some c) s' else None
      | [] => None
      end
  | Max_repeat lo hi cls :: p' => max_repeat cls (run p' k) lo hi prev s
  | Min_repeat lo hi cls :: p' => min_repeat cls (run p' k) lo hi prev s
  end.

(** A match attempt at one position; the result is the text after the
    match.  With [must_advance] an empty match is refused, as [re] does
    right after an empty match at the same position. *)
Definition match_at (p : pattern) (must_advance : bool) (prev : option N) (s : text)
    : option text :=
  run p (fun _ r => if must_advance && (length r =? length s) then None else Some r)
      prev s.

(** [re.sub(p, repl, s)] with a constant replacement, scanning from the
    position [(prev, s)]; [skip] code points are still inside the last
    match and are dropped.  Matches are taken leftmost first and do not
    overlap; after an empty match the same position is tried once more for
    a non-empty one, and otherwise its code point is copied. *)
Fixpoint sub_from (p : pattern) (repl : text) (prev : option N) (s : text)
    (skip : nat) : text :=
  match skip with
  | S n =>
      match s with
      | [] => []
      | c :: s' => sub_from p repl (Some c) s' n
      end
  | O =>
      let copy :=
        match s with
        | [] => []
        | c :: s' => c :: sub_from p repl (Some c) s' 0
        end in
      let replace (r : text) :=
        repl ++ match s with
                | [] => []
                | c :: s' => sub_from p repl (Some c) s' (length s' - length r)
                end in
      match match_at p false prev s with
      | None => copy
      | Some r =>
          if length r =? length s then
            repl ++ match match_at p true prev s with
                    | None => copy
                    | Some r' => replace r'
                    end
          else replace r
      end
  end.

Definition sub (p : pattern) (repl : text) (s : text) : text :=
  sub_from p repl None s 0.

End Re.

Import Re.

(** ** [remove_imports_exports] *)

(** [\s+], [\s*], [.*?], [;?] *)
Definition spaces1 : op := Max_repeat 1 None is_space.
Definition spaces0 : op := Max_repeat 0 None is_space.
Definition lazy_any : op := Min_repeat 0 None not_newline.
Definition opt_semicolon : op := Max_repeat 0 (Some 1) (is_char 59%N).

(** [\s+Q.*?Q;?\s*$], where Q stands for the set of the two quote
    characters: the quoted path that ends both import patterns. *)
Definition quoted_path : pattern :=
  [spaces1; In_set is_quote; lazy_any; In_set is_quote; opt_semicolon; spaces0;
   At_end_line].

(** [from\s+Q.*?Q;?\s*$] *)
Definition from_clause : pattern := literal "from" ++ quoted_path.

(** [^import\s+.*?from\s+Q.*?Q;?\s*$] *)
Definition import_re : pattern :=
  At_beginning_line :: literal "import" ++ [spaces1; lazy_any] ++ from_clause.

(** [^import\s+{[^}]*}\s+from\s+Q.*?Q;?\s*$] *)
Definition import_braces_re : pattern :=
  At_beginning_line :: literal "import" ++
  [spaces1; In_set (is_char 123%N); Max_repeat 0 None (not_char 125%N);
   In_set (is_char 125%N); spaces1] ++ from_clause.

(** [^export\s+] *)
Definition export_re : pattern :=
  At_beginning_line :: literal "export" ++ [spaces1].

Definition remove_imports_exports (content : text) : text :=
  let content := sub import_re [] content in
  let content := sub import_braces_re [] content in
  let content := sub export_re [] content in
  content.

(** The same function without its second substitution. *)
Definition remove_imports_exports_one_pattern (content : text) : text :=
  let content := sub import_re [] content in
  let content := sub export_re [] content in
  content.

(** ** String operations of the bundler *)

(** [sep.join(parts)] *)
Fixpoint join (sep : text) (parts : list text) : text :=
  match parts with
  | [] => []
  | x :: rest =>
      match rest with
      | [] => x
      | _ :: _ => x ++ sep ++ join sep rest
      end
  end.

Fixpoint take_while (f : N -> bool) (s : text) : text :=
  match s with
  | c :: s' => if f c then c :: take_while f s' else []
  | [] => []
  end.

Fixpoint drop_while (f : N -> bool) (s : text) : text :=
  match s with
  | c :: s' => if f c then drop_while f s' else s
  | [] => []
  end.

(** [s.startswith(w)] *)
Fixpoint starts_with (w s : text) : bool :=
  match w, s with
  | [], _ => true
  | a :: w', c :: s' => (c =? a)%N && starts_with w' s'
  | _ :: _, [] => false
  end.

(** [w in s] *)
Fixpoint occurs (w s : text) : bool :=
  starts_with w s ||
  match s with
  | [] => false
  | _ :: s' => occurs w s'
  end.

(** [s.strip()]: leading and trailing whitespace removed. *)
Definition strip (s : text) : text :=
  rev (drop_while is_space (rev (drop_while is_space s))).

(** [s.replace(old, new)]: the occurrences of [old] replaced from left to
    right without overlap; [skip] code points still belong to the occurrence
    just replaced.  For an empty [old] Python puts [new] around every code
    point. *)
Fixpoint replace_from (old new : text) (skip : nat) (s : text) : text :=
  match s with
  | [] => []
  | c :: s' =>
      match skip with
      | S n => replace_from old new n s'
      | O =>
          if starts_with old s
          then new ++ replace_from old new (length old - 1) s'
          else c :: replace_from old new 0 s'
      end
  end.

Definition str_replace (old new s : text) : text :=
  match old with
  | [] => new ++ flat_map (fun c => c :: new) s
  | _ :: _ => replace_from old new 0 s
  end.

(** [os.path.basename] of [posixpath]: what follows the last slash. *)
Definition basename (p : text) : text :=
  rev (take_while (not_char 47%N) (rev p)).

(** [str(n)] for a length. *)
Definition str_of_nat (n : nat) : text :=
  codes (NilEmpty.string_of_uint (Nat.to_uint n)).

(** ** [bundle_modules] *)

Definition MODULES : list text :=
  [ codes "src/utils/DOMHelpers.js";
    codes "src/utils/DataSanitizer.js";
    codes "src/utils/Validators.js";
    codes "src/storage/StorageManager.js";
    codes "src/ui/UIManager.js";
    codes "src/extractors/DataExtractor.js";
    codes "src/scrapers/ProductScraper.js";
    codes "src/scrapers/BulkScraper.js";
    codes "src/address/AddressImporter.js" ].

Definition HEADER_LINES : list text :=
  [ codes "/**";
    codes " * Amazon Scraper Extension - Bundled Refactored Version";
    codes " * All modules combined into a single file for Chrome extension compatibility";
    codes " *";
    codes " * Original structure:";
    codes " * - src/utils/        (DOMHelpers, DataSanitizer, Validators)";
    codes " * - src/extractors/   (DataExtractor)";
    codes " * - src/scrapers/     (ProductScraper, BulkScraper)";
    codes " * - src/address/      (AddressImporter)";
    codes " * - src/ui/           (UIManager)";
    codes " * - src/storage/      (StorageManager)";
    codes " */";
    [];
    [DQUOTE] ++ codes "use strict" ++ [DQUOTE] ++ codes ";";
    [];
    [] ].

Definition BOOTSTRAP_LINES : list text :=
  [ [];
    codes "// ========================================";
    codes "// MAIN APPLICATION";
    codes "// ========================================";
    [];
    codes "class AmazonScraperApp {";
    codes "  constructor() {";
    codes "    this.productScraper = null;";
    codes "    this.bulkScraper = null;";
    codes "    this.addressImporter = null;";
    codes "    this.init();";
    codes "  }";
    [];
    codes "  async init() {";
    codes "    if (document.readyState === 'loading') {";
    codes "      document.addEventListener('DOMContentLoaded', () => this.initializeFeatures());";
    codes "    } else {";
    codes "      this.initializeFeatures();";
    codes "    }";
    [];
    codes "    UIManager.injectStyles();";
    codes "  }";
    [];
    codes "  async initializeFeatures() {";
    codes "    if (DOMHelpers.isProductPage()) {";
    codes "      this.productScraper = new ProductScraper();";
    codes "      await this.productScraper.init();";
    codes "    }";
    codes "    else if (DOMHelpers.isCategoryPage()) {";
    codes "      this.bulkScraper = new BulkScraper();";
    codes "      await this.bulkScraper.init();";
    codes "    }";
    [];
    codes "    if (DOMHelpers.isAddressPage()) {";
    codes "      this.addressImporter = new AddressImporter();";
    codes "      this.addressImporter.init();";
    codes "    }";
    codes "  }";
    codes "}";
    [];
    codes "// Initialize the application";
    codes "new AmazonScraperApp();";
    [] ].

(** The two triple-quoted literals of [bundle_modules]. *)
Definition HEADER : text := Eval vm_compute in join [LF] HEADER_LINES.
Definition BOOTSTRAP : text := Eval vm_compute in join [LF] BOOTSTRAP_LINES.

Definition DIVIDER : text := codes "// ========================================".
Definition OUTPUT_PATH : text := codes "content-refactored.js".

(** What a run sees and leaves behind: the text files on disk, by path, and
    the lines printed to standard output.  On this disk every path is
    missing or a text file that can be read, two spellings are two paths, and
    the write goes through; [bundle_modules_on] below runs the same loop
    against a file system whose reads and writes can fail. *)
Record world := World {
  disk : gmap text text;
  stdout : list text
}.

(** [os.path.exists(path)] *)
Definition path_exists (files : gmap text text) (path : text) : bool :=
  match files !! path with
  | Some _ => true
  | None => false
  end.

(** [open(path, 'r', encoding='utf-8').read()]: fails on a missing file, the
    one failure there is on a disk of text files. *)
Definition read_file (files : gmap text text) (path : text) : option text :=
  files !! path.

Section Bundler.

(** [str.upper] maps each code point on its own.  For a code point outside
    ASCII the result comes from the Unicode tables of the interpreter
    ([_PyUnicode_ToUpperFull]), which are no part of [bundle.py]. *)
Variable unicode_upper : N -> text.

Definition upper_char (c : N) : text :=
  if (c <? 128)%N
  then [if (97 <=? c)%N && (c <=? 122)%N then (c - 32)%N else c]
  else unicode_upper c.

Definition upper (s : text) : text := flat_map upper_char s.

(** [os.path.basename(module_path).replace('.js', '')] *)
Definition module_name (module_path : text) : text :=
  str_replace (codes ".js") [] (basename module_path).

(** The five items one module appends to [output]. *)
Definition module_items (module_path content : text) : list text :=
  let content := remove_imports_exports content in
  let content := strip content in
  let module_name := module_name module_path in
  [ LF :: DIVIDER;
    codes "// " ++ upper module_name ++ codes " MODULE";
    DIVIDER ++ [LF];
    content;
    [LF] ].

Definition warning (module_path : text) : text :=
  codes "Warning: " ++ module_path ++ codes " not found, skipping...".

(** The [for module_path in MODULES] loop, threading [output] and the
    printed lines.  A failing read ends the run ([None]). *)
Fixpoint bundle_loop (files : gmap text text) (modules : list text)
    (output : list text) (printed : list text) : option (list text * list text) :=
  match modules with
  | [] => Some (output, printed)
  | module_path :: modules' =>
      if negb (path_exists files module_path) then
        bundle_loop files modules' output (printed ++ [warning module_path])
      else
        content ← read_file files module_path;
        bundle_loop files modules' (output ++ module_items module_path content) printed
  end.

(** [bundle_modules] with the module list as a parameter.  *)
Definition bundle_modules_of (modules : list text) (w : world) : option world :=
  '(output, printed) ← bundle_loop (disk w) modules [HEADER] (stdout w);
  let output := output ++ [BOOTSTRAP] in
  let bundled_content := join [LF] output in
  Some {| disk := <[OUTPUT_PATH := bundled_content]> (disk w);
          stdout := printed ++
            [ codes "Successfully bundled " ++ str_of_nat (length modules) ++
                codes " modules into content-refactored.js";
              codes "Total size: " ++ str_of_nat (length bundled_content) ++
                codes " characters" ] |}.

Definition bundle_modules : world -> option world := bundle_modules_of MODULES.

End Bundler.

(** ** [bundle_modules] against any file system *)

Section Host.

Variable unicode_upper : N -> text.

(** The file system as the run meets it, through three calls that the
    operating system answers.  [read_on] is [open(path, 'r').read()] and
    gives [None] when either raises: the path is a directory, may not be
    read, is not UTF-8, or is gone since the check.  [write_on] is
    [open(path, 'w').write(text)]: it gives the file system after the call
    and whether the call went through; a call that fails may still have cut
    the file to length zero. *)
Variable filesystem : Type.
Variable exists_on : filesystem -> text -> bool.
Variable read_on : filesystem -> text -> option text.
Variable write_on : filesystem -> text -> text -> filesystem * bool.

(** How a run ends: it returns, or an exception leaves it; either way with
    the file system and the lines printed up to then. *)
Inductive outcome :=
| Returned (fs : filesystem) (printed : list text)
| Raised (fs : filesystem) (printed : list text).

(** The loop, with the lines printed so far when a read raises. *)
Fixpoint bundle_loop_on (fs : filesystem) (modules : list text)
    (output printed : list text) : list text * list text + list text :=
  match modules with
  | [] => inl (output, printed)
  | module_path :: modules' =>
      if negb (exists_on fs module_path) then
        bundle_loop_on fs modules' output (printed ++ [warning module_path])
      else
        match read_on fs module_path with
        | None => inr printed
        | Some content =>
            bundle_loop_on fs modules'
              (output ++ module_items unicode_upper module_path content) printed
        end
  end.

Definition bundle_modules_on (modules : list text) (fs : filesystem)
    (printed : list text) : outcome :=
  match bundle_loop_on fs modules [HEADER] printed with
  | inr printed => Raised fs printed
  | inl (output, printed) =>
      let output := output ++ [BOOTSTRAP] in
      let bundled_content := join [LF] output in
      let answer := write_on fs OUTPUT_PATH bundled_content in
      if answer.2 then
        Returned answer.1
          (printed ++
           [ codes "Successfully bundled " ++ str_of_nat (length modules) ++
               codes " modules into content-refactored.js";
             codes "Total size: " ++ str_of_nat (length bundled_content) ++
               codes " characters" ])
      else Raised answer.1 printed
  end.

(** The listed modules that exist, with what is read from them, and the
    listed paths that do not exist, both in the order of the list. *)
Fixpoint found_on (fs : filesystem) (modules : list text) : list (text * text) :=
  match modules with
  | [] => []
  | p :: modules' =>
      match (if exists_on fs p then read_on fs p else None) with
      | Some content => (p, content) :: found_on fs modules'
      | None => found_on fs modules'
      end
  end.

Fixpoint lost_on (fs : filesystem) (modules : list text) : list text :=
  match modules with
  | [] => []
  | p :: modules' =>
      if exists_on fs p then lost_on fs modules' else p :: lost_on fs modules'
  end.

(** Every listed path that exists can be read. *)
Definition all_readable (fs : filesystem) (modules : list text) : Prop :=
  Forall (fun p => exists_on fs p = true -> is_Some (read_on fs p)) modules.

End Host.

Arguments Returned {filesystem} fs printed.
Arguments Raised {filesystem} fs printed.

(** A file system with directories: a path names a text file or a directory,
    or nothing.  A directory can be neither read nor written. *)
Inductive node := Text_file (content : text) | Directory.

Definition tree_exists (fs : gmap text node) (path : text) : bool :=
  match fs !! path with Some _ => true | None => false end.

Definition tree_read (fs : gmap text node) (path : text) : option text :=
  match fs !! path with Some (Text_file content) => Some content | _ => None end.

Definition tree_write (fs : gmap text node) (path content : text)
    : gmap text node * bool :=
  match fs !! path with
  | Some Directory => (fs, false)
  | _ => (<[path := Text_file content]> fs, true)
  end.

(** ** Lines of a text *)

(** [s.split('\n')] and its inverse ['\n'.join(ls)]. *)
Fixpoint lines (s : text) : list text :=
  match s with
  | [] => [[]]
  | c :: s' =>
      if (c =? LF)%N then [] :: lines s'
      else match lines s' with
           | l :: ls => (c :: l) :: ls
           | [] => [[c]]
           end
  end.

Definition unlines (ls : list text) : text := join [LF] ls.

(** A text without a line feed: one line. *)
Definition one_line (l : text) : Prop := forallb not_newline l = true.

Definition kw_import : text := codes "import".
Definition kw_export : text := codes "export".
Definition kw_from : text := codes "from".

(** The line begins with the keyword, followed by whitespace or by the end
    of the line. *)
Definition keyword_line (kw l : text) : bool :=
  starts_with kw l &&
  match drop (length kw) l with
  | [] => true
  | c :: _ => is_space c
  end.

(** A line that begins with neither [import] nor [export] as a keyword. *)
Definition plain_line (l : text) : Prop :=
  keyword_line kw_import l = false /\ keyword_line kw_export l = false.

(** Whitespace that stays on the line. *)
Definition is_blank (c : N) : bool := is_space c && not_newline c.

(** A complete import statement on one line:
    [import], blanks, any binding text, [from], blanks, a quoted path, an
    optional semicolon and trailing blanks.  The binding text covers both
    [X ] and [{ a, b } ]. *)
Inductive import_statement : text -> Prop :=
| Import_statement (sp1 binding sp2 : text) (q1 : N) (path : text) (q2 : N)
    (semi sp3 : text) :
    sp1 <> [] -> forallb is_blank sp1 = true ->
    forallb not_newline binding = true ->
    sp2 <> [] -> forallb is_blank sp2 = true ->
    is_quote q1 = true ->
    forallb not_newline path = true ->
    is_quote q2 = true ->
    semi = [] \/ semi = [59%N] ->
    forallb is_blank sp3 = true ->
    import_statement
      (kw_import ++ sp1 ++ binding ++ kw_from ++ sp2 ++ q1 :: path ++ q2 :: semi ++ sp3).

(** The first line of an import statement that goes on below: [import],
    whitespace, a binding that does not open with a brace, and no [from] on
    the line. *)
Definition broken_import (l : text) : bool :=
  starts_with kw_import l &&
  match drop 6 l with
  | c :: _ => is_space c
  | [] => false
  end &&
  match drop_while is_space (drop 6 l) with
  | d :: _ => negb (d =? 123)%N
  | [] => false
  end &&
  negb (occurs kw_from l).

(** What the export substitution makes of one line on its own. *)
Definition strip_export (l : text) : text :=
  if starts_with kw_export l then
    match drop 6 l with
    | c :: r => if is_space c then drop_while is_space r else l
    | [] => l
    end
  else l.

(** After [export] the line goes on with something else than whitespace. *)
Definition export_has_operand (l : text) : bool :=
  negb (starts_with kw_export l) ||
  match drop_while is_space (drop 6 l) with
  | [] => false
  | _ :: _ => true
  end.

(** ** What a pattern matches *)

(** The code point before the position reached after [w]. *)
Definition last_of (prev : option N) (w : text) : option N :=
  match last w with
  | Some c => Some c
  | None => prev
  end.

Definition within (hi : option nat) (n : nat) : Prop :=
  match hi with
  | Some h => n <= h
  | None => True
  end.

(** [derives p prev s r]: from the position [(prev, s)] the pattern [p] can
    match a prefix of [s] that leaves [r]; no priorities, every way the
    pattern can match. *)
Fixpoint derives (p : pattern) (prev : option N) (s r : text) : Prop :=
  match p with
  | [] => r = s
  | At_beginning_line :: p' => at_bol prev = true /\ derives p' prev s r
  | At_end_line :: p' => at_eol s = true /\ derives p' prev s r
  | In_set cls :: p' =>
      exists c s', s = c :: s' /\ cls c = true /\ derives p' (Some c) s' r
  | Max_repeat lo hi cls :: p' | Min_repeat lo hi cls :: p' =>
      exists w s', s = w ++ s' /\ forallb cls w = true /\ lo <= length w /\
        within hi (length w) /\ derives p' (last_of prev w) s' r
  end.

(** A pattern that starts with [^] and a literal code point other than the
    line feed: it matches at line starts only, and never the empty text. *)
Definition anchored (p : pattern) : Prop :=
  exists a p', p = At_beginning_line :: In_set (is_char a) :: p' /\ a <> LF.

(** ** The text a bundle is expected to be *)

Section Layout.

Variable unicode_upper : N -> text.

(** One module in the bundle: divider, name comment, divider, a blank line,
    the transformed content and three line feeds. *)
Definition module_block (module : text * text) : text :=
  [LF] ++ DIVIDER ++ [LF] ++
  codes "// " ++ upper unicode_upper (module_name module.1) ++ codes " MODULE" ++ [LF] ++
  DIVIDER ++ [LF] ++ [LF] ++
  strip (remove_imports_exports module.2) ++ [LF] ++ [LF] ++ [LF].

Definition bundle_text (modules : list (text * text)) : text :=
  HEADER ++ [LF] ++ concat (map module_block modules) ++ BOOTSTRAP.

End Layout.

(** The two lines printed at the end of a run. *)
Definition summary (count size : nat) : list text :=
  [ codes "Successfully bundled " ++ str_of_nat count ++
      codes " modules into content-refactored.js";
    codes "Total size: " ++ str_of_nat size ++ codes " characters" ].

(** Every listed module is on disk with the listed content. *)
Definition on_disk (files : gmap text text) (modules : list (text * text)) : Prop :=
  Forall (fun m => files !! m.1 = Some m.2) modules.

(** The number of non-overlapping occurrences of a non-empty [w] in [s]. *)
Fixpoint count_from (w : text) (skip : nat) (s : text) : nat :=
  match s with
  | [] => 0
  | _ :: s' =>
      match skip with
      | S n => count_from w n s'
      | O => if starts_with w s then S (count_from w (length w - 1) s')
             else count_from w 0 s'
      end
  end.

Definition count_occurrences (w s : text) : nat := count_from w 0 s.

(** ** Notions the theorems are stated with *)

(** The three patterns start with [^], a keyword and [\s+]. *)
Definition keyword_re (kw : text) (p : pattern) : pattern :=
  At_beginning_line :: literal_codes kw ++ spaces1 :: p.

(** No match of [p] starts on the line [l], whatever follows the line. *)
Definition no_match_on (p : pattern) (l : text) : Prop :=
  forall r, at_eol r = true -> match_at p false None (l ++ r) = None.

(** The scan of [sub_from] past the end of a line: the line feed is copied
    and the scan goes on at the start of the next line. *)
Definition sub_next (p : pattern) (repl : text) (r : text) : text :=
  match r with
  | [] => []
  | c :: r' => c :: sub_from p repl (Some c) r' 0
  end.

(** The text after the first line of [unlines (l :: ls)]. *)
Definition after_line (ls : list text) : text :=
  match ls with
  | [] => []
  | _ :: _ => LF :: unlines ls
  end.

(** An empty line, or one of whitespace only. *)
Definition blank_line (l : text) : bool := forallb is_space l.

(** The line after a statement, when there is one, is not blank. *)
Definition no_blank_follows (ls : list text) : Prop :=
  forall l, head ls = Some l -> blank_line l = false.

(** What becomes of a line once the import statements are removed. *)
Definition empty_if_import (l : text) : text :=
  if keyword_line kw_import l then [] else l.

(** No import line is followed by a blank line. *)
Fixpoint imports_followed (ls : list text) : Prop :=
  match ls with
  | [] => True
  | l :: ls' =>
      (keyword_line kw_import l = true -> no_blank_follows ls') /\ imports_followed ls'
  end.

(** What follows a statement in the text: nothing, or a line feed and a
    line that holds, after its indentation [w], a code point [c] that is
    not whitespace. *)
Definition solid_after (R : text) : Prop :=
  R = [] \/
  exists w c R', R = LF :: w ++ c :: R' /\ forallb is_blank w = true /\ is_space c = false.

(** The last code point of a text that is not whitespace. *)
Fixpoint last_solid (l : text) : option N :=
  match l with
  | [] => None
  | c :: l' =>
      match last_solid l' with
      | Some d => Some d
      | None => if is_space c then None else Some c
      end
  end.

(** A brace is left open at the end of the line. *)
Fixpoint open_brace (opened : bool) (l : text) : bool :=
  match l with
  | [] => opened
  | c :: l' =>
      if (c =? 123)%N then open_brace true l'
      else if (c =? 125)%N then open_brace false l'
      else open_brace opened l'
  end.

(** A file name without its extension, as C8 words it: the last dot and
    what follows it cut off. *)
Definition strip_extension (name : text) : text :=
  match rev (drop_while (not_char 46%N) (rev name)) with
  | [] => name
  | root => removelast root
  end.

(** ** Notions of the further properties *)

(** The lines after the blank lines at the head of a list. *)
Fixpoint skip_blank_lines (ls : list text) : list text :=
  match ls with
  | l :: ls' => if blank_line l then skip_blank_lines ls' else ls
  | [] => []
  end.

(** What the first substitution leaves of the lines of a text: a line that
    begins with [import] is emptied, and the blank lines right after it are
    dropped, line breaks included. *)
Fixpoint clear_imports (after_import : bool) (ls : list text) : list text :=
  match ls with
  | [] => []
  | l :: ls' =>
      if after_import && blank_line l then clear_imports true ls'
      else if keyword_line kw_import l then [] :: clear_imports true ls'
      else l :: clear_imports false ls'
  end.

(** Where [\s*$] ends from the start of [s]: the whitespace run is taken
    whole and given back up to the last place that is the end of a line. *)
Fixpoint last_eol (s : text) : option text :=
  match s with
  | [] => Some []
  | c :: s' =>
      let stop := if (c =? LF)%N then Some s else None in
      if is_space c then
        match last_eol s' with
        | Some r => Some r
        | None => stop
        end
      else stop
  end.

(** The import pattern up to the optional semicolon. *)
Definition import_head : pattern :=
  At_beginning_line :: literal_codes kw_import ++
    spaces1 :: lazy_any :: literal_codes kw_from ++
    [spaces1; In_set is_quote; lazy_any; In_set is_quote; opt_semicolon].

(** The second import pattern up to the optional semicolon. *)
Definition import_braces_head : pattern :=
  At_beginning_line :: literal_codes kw_import ++
    spaces1 :: In_set (is_char 123%N) :: Max_repeat 0 None (not_char 125%N) ::
    In_set (is_char 125%N) :: spaces1 :: literal_codes kw_from ++
    [spaces1; In_set is_quote; lazy_any; In_set is_quote; opt_semicolon].

(** A line read backwards from its last code point that is not
    whitespace. *)
Definition line_end (l : text) : text := drop_while is_space (rev l).

(** The line ends the way a match of an import pattern can end or go on
    below: with a quote, a quote and a semicolon, a closing brace or [from];
    [t] is the line read backwards. *)
Definition statement_end (t : text) : bool :=
  starts_with (rev kw_from) t ||
  match t with
  | c :: t' =>
      is_quote c || (c =? 125)%N ||
      ((c =? 59)%N && match t' with q :: _ => is_quote q | [] => false end)
  | [] => false
  end.

(** A line that begins with [import] and goes on after the statement, with
    a comment or more code: there is something after the keyword, no brace
    is left open, and the line does not end like a statement. *)
Definition import_with_tail (l : text) : bool :=
  starts_with kw_import l &&
  negb (blank_line (drop 6 l)) &&
  negb (open_brace false l) &&
  negb (statement_end (line_end l)).

(** The lines after a line that holds [export] alone: the whitespace run of
    the match goes on through the blank lines and the indentation of the
    next line. *)
Definition join_next (following : list text) : list text :=
  match skip_blank_lines following with
  | l :: ls => drop_while is_space l :: ls
  | [] => [[]]
  end.

(** A text that neither begins nor ends with whitespace. *)
Definition trimmed (s : text) : Prop :=
  match head s with Some c => is_space c = false | None => True end /\
  match last s with Some c => is_space c = false | None => True end.

(** An import statement with a brace group, which may run over several
    lines: [import], blanks, the group in braces, blanks, [from], blanks, a
    quoted path, an optional semicolon and trailing blanks. *)
Inductive brace_import : text -> Prop :=
| Brace_import (sp1 group sp2 sp3 : text) (q1 : N) (path : text) (q2 : N)
    (semi sp4 : text) :
    sp1 <> [] -> forallb is_blank sp1 = true ->
    forallb (not_char 125%N) group = true ->
    sp2 <> [] -> forallb is_blank sp2 = true ->
    sp3 <> [] -> forallb is_blank sp3 = true ->
    is_quote q1 = true ->
    forallb not_newline path = true ->
    is_quote q2 = true ->
    semi = [] \/ semi = [59%N] ->
    forallb is_blank sp4 = true ->
    brace_import
      (kw_import ++ sp1 ++ 123%N :: group ++ 125%N :: sp2 ++ kw_from ++ sp3 ++
       q1 :: path ++ q2 :: semi ++ sp4).

(** The statement goes over several lines: its first line has no [from], and
    none of its other lines begins with a keyword. *)
Definition spread_over_lines (stmt : text) : Prop :=
  match lines stmt with
  | first :: others => occurs kw_from first = false /\ Forall plain_line others
  | [] => False
  end.

(** [body] is [t] without the whitespace at its two ends. *)
Definition trim_of (t body : text) : Prop :=
  exists a b, t = a ++ body ++ b /\
    forallb is_space a = true /\ forallb is_space b = true /\ trimmed body.

(** A line of a module with one-line imports: an import statement, or a
    line that does not begin with [import] and on which a leading [export] is
    followed by something else than whitespace. *)
Definition module_line (l : text) : Prop :=
  import_statement l \/
  (keyword_line kw_import l = false /\ export_has_operand l = true).

(** The content of a block as C7 words it, for a module with the text
    [source]: the text after the three substitutions, trimmed; and for a
    module of such lines the text of its lines without the import
    statements, the blank lines below them and the leading [export]
    keywords, trimmed. *)
Definition transformed (source body : text) : Prop :=
  trim_of (remove_imports_exports source) body /\
  (Forall module_line (lines source) ->
   trim_of (unlines (map strip_export (clear_imports false (lines source)))) body).

(** The name in the comment of a block: for a path [name.js] or
    [dir/name.js], where [name] holds neither a slash nor [.js], it is
    [name]. *)
Definition named (module_path name : text) : Prop :=
  forall dir base,
    module_path = base ++ codes ".js" \/ module_path = dir ++ 47%N :: base ++ codes ".js" ->
    forallb (not_char 47%N) base = true -> occurs (codes ".js") base = false ->
    name = base.

Section Block.

Variable unicode_upper : N -> text.

(** One block written out, with its name and its content. *)
Definition block (name body : text) : text :=
  [LF] ++ DIVIDER ++ [LF] ++
  codes "// " ++ upper unicode_upper name ++ codes " MODULE" ++ [LF] ++
  DIVIDER ++ [LF] ++ [LF] ++
  body ++ [LF] ++ [LF] ++ [LF].

(** What C7 says of the block of a module [m], a path and a text: it is a
    block with a name and a content, the name that of the path and the
    content the text transformed. *)
Definition block_as_claimed (m : text * text) : Prop :=
  exists name body,
    module_block unicode_upper m = block name body /\
    named m.1 name /\ transformed m.2 body.

End Block.

(** * Properties of the matcher *)

Section Matcher.

Implicit Types (p : pattern) (k : cont) (prev : option N) (s r w : text).

Lemma last_of_nil prev : last_of prev [] = prev.
Proof. reflexivity. Qed.

Lemma last_of_cons prev c w : last_of prev (c :: w) = last_of (Some c) w.
Proof.
  unfold last_of. destruct w as [|d w]; [reflexivity|].
  rewrite last_cons. destruct (last (d :: w)) eqn:E; [reflexivity|].
  apply last_None in E. discriminate.
Qed.

Lemma within_step hi n :
  within hi (S n) -> may_repeat hi = true /\ within (one_less hi) n.
Proof.
  destruct hi as [[|h]|]; simpl; intros H; try lia; split; auto; lia.
Qed.

Lemma within_back hi n :
  may_repeat hi = true -> within (one_less hi) n -> within hi (S n).
Proof.
  destruct hi as [[|h]|]; simpl; intros H1 H2; try discriminate; auto; lia.
Qed.

Lemma max_repeat_sound cls k lo hi prev s r :
  max_repeat cls k lo hi prev s = Some r ->
  exists w s', s = w ++ s' /\ forallb cls w = true /\ lo <= length w /\
    within hi (length w) /\ k (last_of prev w) s' = Some r.
Proof.
  revert lo hi prev. induction s as [|c s IH]; intros lo hi prev H.
  - simpl in H. destruct lo; [|discriminate].
    exists [], []. repeat split; auto. destruct hi; simpl; lia.
  - simpl in H.
    assert (Hstop : match lo with 0 => k prev (c :: s) | S _ => None end = Some r ->
      exists w s', c :: s = w ++ s' /\ forallb cls w = true /\ lo <= length w /\
        within hi (length w) /\ k (last_of prev w) s' = Some r).
    { destruct lo; [|discriminate]. intros Hk.
      exists [], (c :: s). repeat split; auto. destruct hi; simpl; lia. }
    destruct (cls c && may_repeat hi) eqn:E; [|auto].
    apply andb_prop in E as [Ec Em].
    destruct (max_repeat cls k (pred lo) (one_less hi) (Some c) s) as [r'|] eqn:R; [|auto].
    injection H as ->.
    apply IH in R as (w & s' & -> & Hw & Hlo & Hhi & Hk).
    exists (c :: w), s'. rewrite last_of_cons. simpl. rewrite Ec, Hw.
    repeat split; auto; [lia|]. apply within_back; auto.
Qed.

Lemma max_repeat_complete cls k lo hi prev w s' :
  forallb cls w = true -> lo <= length w -> within hi (length w) ->
  is_Some (k (last_of prev w) s') ->
  is_Some (max_repeat cls k lo hi prev (w ++ s')).
Proof.
  revert lo hi prev. induction w as [|c w IH]; intros lo hi prev Hw Hlo Hhi Hk.
  - simpl in *. assert (lo = 0) as -> by lia. rewrite last_of_nil in Hk.
    destruct s' as [|c s']; simpl; [exact Hk|].
    destruct (cls c && may_repeat hi); [|exact Hk].
    destruct (max_repeat cls k 0 (one_less hi) (Some c) s'); [eauto | exact Hk].
  - simpl in Hw. apply andb_prop in Hw as [Hc Hw].
    simpl in Hhi. apply within_step in Hhi as [Hm Hhi].
    simpl. rewrite Hc, Hm. simpl.
    rewrite last_of_cons in Hk.
    destruct (IH (pred lo) (one_less hi) (Some c) Hw) as [r Hr]; auto.
    { simpl in Hlo. lia. }
    rewrite Hr. eauto.
Qed.

Lemma min_repeat_sound cls k lo hi prev s r :
  min_repeat cls k lo hi prev s = Some r ->
  exists w s', s = w ++ s' /\ forallb cls w = true /\ lo <= length w /\
    within hi (length w) /\ k (last_of prev w) s' = Some r.
Proof.
  revert lo hi prev. induction s as [|c s IH]; intros lo hi prev H.
  - simpl in H. destruct lo; [|discriminate].
    destruct (k prev []) eqn:Hk; [|discriminate]. injection H as ->.
    exists [], []. repeat split; auto. destruct hi; simpl; lia.
  - simpl in H.
    assert (Hmore : (if cls c && may_repeat hi
                     then min_repeat cls k (pred lo) (one_less hi) (Some c) s
                     else None) = Some r ->
      exists w s', c :: s = w ++ s' /\ forallb cls w = true /\ lo <= length w /\
        within hi (length w) /\ k (last_of prev w) s' = Some r).
    { destruct (cls c && may_repeat hi) eqn:E; [|discriminate].
      apply andb_prop in E as [Ec Em]. intros R.
      apply IH in R as (w & s' & -> & Hw & Hlo & Hhi & Hk).
      exists (c :: w), s'. rewrite last_of_cons. simpl. rewrite Ec, Hw.
      repeat split; auto; [lia|]. apply within_back; auto. }
    destruct lo; [|auto].
    destruct (k prev (c :: s)) eqn:Hk; [|auto]. injection H as ->.
    exists [], (c :: s). repeat split; auto. destruct hi; simpl; lia.
Qed.

Lemma min_repeat_complete cls k lo hi prev w s' :
  forallb cls w = true -> lo <= length w -> within hi (length w) ->
  is_Some (k (last_of prev w) s') ->
  is_Some (min_repeat cls k lo hi prev (w ++ s')).
Proof.
  revert lo hi prev. induction w as [|c w IH]; intros lo hi prev Hw Hlo Hhi Hk.
  - simpl in *. assert (lo = 0) as -> by lia.
    rewrite last_of_nil in Hk. destruct Hk as [r Hr].
    destruct s' as [|c s']; simpl; rewrite Hr; eauto.
  - simpl in Hw. apply andb_prop in Hw as [Hc Hw].
    simpl in Hhi. apply within_step in Hhi as [Hm Hhi].
    rewrite last_of_cons in Hk.
    destruct (IH (pred lo) (one_less hi) (Some c) Hw) as [r Hr]; auto.
    { simpl in Hlo. lia. }
    simpl. rewrite Hc, Hm. simpl. rewrite Hr.
    destruct lo; [|eauto]. destruct (k prev (c :: w ++ s')); eauto.
Qed.

(** Whatever the matcher returns is a way the pattern matches. *)
Lemma run_sound p k prev s r :
  run p k prev s = Some r ->
  exists s' prev', derives p prev s s' /\ k prev' s' = Some r.
Proof.
  revert k prev s. induction p as [|o p IH]; intros k prev s H.
  - simpl in *. eauto.
  - destruct o as [| |cls|lo hi cls|lo hi cls]; simpl in H.
    + destruct (at_bol prev) eqn:E; [|discriminate].
      apply IH in H as (s' & prev' & Hd & Hk). exists s', prev'. simpl. auto.
    + destruct (at_eol s) eqn:E; [|discriminate].
      apply IH in H as (s' & prev' & Hd & Hk). exists s', prev'. simpl. auto.
    + destruct s as [|c s]; [discriminate|].
      destruct (cls c) eqn:E; [|discriminate].
      apply IH in H as (s' & prev' & Hd & Hk). exists s', prev'. simpl. eauto 10.
    + apply max_repeat_sound in H as (w & s1 & -> & Hw & Hlo & Hhi & H).
      apply IH in H as (s' & prev' & Hd & Hk). exists s', prev'. simpl. eauto 10.
    + apply min_repeat_sound in H as (w & s1 & -> & Hw & Hlo & Hhi & H).
      apply IH in H as (s' & prev' & Hd & Hk). exists s', prev'. simpl. eauto 10.
Qed.

(** Whenever the pattern can match, the matcher finds a match. *)
Lemma run_complete p k prev s r :
  derives p prev s r -> (forall prev', is_Some (k prev' r)) ->
  is_Some (run p k prev s).
Proof.
  revert k prev s. induction p as [|o p IH]; intros k prev s Hd Hk.
  - simpl in *. subst. apply Hk.
  - destruct o as [| |cls|lo hi cls|lo hi cls]; simpl in Hd |- *.
    + destruct Hd as [-> Hd]. eauto.
    + destruct Hd as [-> Hd]. eauto.
    + destruct Hd as (c & s' & -> & -> & Hd). eauto.
    + destruct Hd as (w & s' & -> & Hw & Hlo & Hhi & Hd).
      apply max_repeat_complete; eauto.
    + destruct Hd as (w & s' & -> & Hw & Hlo & Hhi & Hd).
      apply min_repeat_complete; eauto.
Qed.

Lemma match_at_sound p prev s r :
  match_at p false prev s = Some r -> derives p prev s r.
Proof.
  unfold match_at. intros H. apply run_sound in H as (s' & prev' & Hd & Hk).
  simpl in Hk. injection Hk as ->. exact Hd.
Qed.

Lemma match_at_complete p prev s r :
  derives p prev s r -> is_Some (match_at p false prev s).
Proof.
  intros Hd. unfold match_at. eapply run_complete; eauto.
Qed.

(** A match consumes a prefix of the text. *)
Lemma derives_consumes p prev s r :
  derives p prev s r -> exists m, s = m ++ r.
Proof.
  revert prev s. induction p as [|o p IH]; intros prev s Hd.
  - simpl in Hd. subst. exists []. reflexivity.
  - destruct o as [| |cls|lo hi cls|lo hi cls]; simpl in Hd.
    + destruct Hd as [_ Hd]. eauto.
    + destruct Hd as [_ Hd]. eauto.
    + destruct Hd as (c & s' & -> & _ & Hd).
      apply IH in Hd as [m ->]. exists (c :: m). reflexivity.
    + destruct Hd as (w & s' & -> & _ & _ & _ & Hd).
      apply IH in Hd as [m ->]. exists (w ++ m). apply app_assoc.
    + destruct Hd as (w & s' & -> & _ & _ & _ & Hd).
      apply IH in Hd as [m ->]. exists (w ++ m). apply app_assoc.
Qed.

Lemma derives_end_of_line p prev s r :
  derives (p ++ [At_end_line]) prev s r -> at_eol r = true.
Proof.
  revert prev s. induction p as [|o p IH]; intros prev s Hd.
  - simpl in Hd. destruct Hd as [He ->]. exact He.
  - destruct o as [| |cls|lo hi cls|lo hi cls]; simpl in Hd.
    + destruct Hd as [_ Hd]. eauto.
    + destruct Hd as [_ Hd]. eauto.
    + destruct Hd as (c & s' & -> & _ & Hd). eauto.
    + destruct Hd as (w & s' & -> & _ & _ & _ & Hd). eauto.
    + destruct Hd as (w & s' & -> & _ & _ & _ & Hd). eauto.
Qed.

End Matcher.


(** * Substitution with an anchored pattern *)

Section Anchored.

Variable p : pattern.
Hypothesis Hp : anchored p.

Implicit Types (prev : option N) (s r l : text).

Lemma anchored_not_bol adv prev s :
  at_bol prev = false -> match_at p adv prev s = None.
Proof.
  destruct Hp as (a & p' & -> & _). intros H.
  unfold match_at. simpl. rewrite H. reflexivity.
Qed.

Lemma anchored_at_eol adv prev s :
  at_eol s = true -> match_at p adv prev s = None.
Proof.
  destruct Hp as (a & p' & -> & Ha). intros H.
  unfold match_at. simpl. destruct (at_bol prev); [|reflexivity].
  destruct s as [|c s]; [reflexivity|].
  simpl in H. apply N.eqb_eq in H. subst c.
  unfold is_char. destruct (N.eqb_spec LF a); [congruence | reflexivity].
Qed.

Lemma anchored_bol adv prev s :
  at_bol prev = true -> match_at p adv prev s = match_at p adv None s.
Proof.
  destruct Hp as (a & p' & -> & _). intros H.
  unfold match_at. simpl. rewrite H. reflexivity.
Qed.

Lemma anchored_consumes prev s r :
  match_at p false prev s = Some r -> exists c m, s = c :: m ++ r.
Proof.
  intros H. apply match_at_sound in H.
  destruct Hp as (a & p' & -> & _). simpl in H.
  destruct H as (_ & c & s' & -> & _ & H).
  apply derives_consumes in H as [m ->]. eauto.
Qed.

Variable repl : text.

Lemma sub_skip prev a b :
  sub_from p repl prev (a ++ b) (length a) = sub_from p repl (last_of prev a) b 0.
Proof.
  revert prev. induction a as [|c a IH]; intros prev; [reflexivity|].
  rewrite last_of_cons. simpl. apply IH.
Qed.

(** A match is replaced and the scan goes on right after it. *)
Lemma sub_match prev s r :
  match_at p false prev s = Some r ->
  exists c m, s = c :: m ++ r /\
    sub_from p repl prev s 0 = repl ++ sub_from p repl (last_of (Some c) m) r 0.
Proof.
  intros H. destruct (anchored_consumes _ _ _ H) as (c & m & ->).
  exists c, m. split; [reflexivity|].
  simpl. rewrite H.
  destruct (Nat.eqb_spec (length r) (S (length (m ++ r)))) as [E|_].
  { rewrite length_app in E. lia. }
  f_equal. replace (length (m ++ r) - length r) with (length m).
  2:{ rewrite length_app. lia. }
  apply sub_skip.
Qed.

Lemma sub_copy prev c s :
  match_at p false prev (c :: s) = None ->
  sub_from p repl prev (c :: s) 0 = c :: sub_from p repl (Some c) s 0.
Proof. intros H. simpl. rewrite H. reflexivity. Qed.

Lemma sub_nil prev : sub_from p repl prev [] 0 = [].
Proof. simpl. rewrite anchored_at_eol; reflexivity. Qed.

Lemma sub_inside_line prev l r :
  one_line l -> at_bol prev = false ->
  sub_from p repl prev (l ++ r) 0 = l ++ sub_from p repl (last_of prev l) r 0.
Proof.
  revert prev. induction l as [|c l IH]; intros prev Hl Hb; [reflexivity|].
  unfold one_line in Hl. simpl in Hl. apply andb_prop in Hl as [Hc Hl].
  rewrite last_of_cons. simpl app. rewrite sub_copy by (apply anchored_not_bol; exact Hb).
  f_equal. apply IH; [exact Hl|].
  simpl. unfold not_newline in Hc. destruct (c =? LF)%N; [discriminate | reflexivity].
Qed.

Lemma sub_at_eol prev r :
  at_eol r = true -> sub_from p repl prev r 0 = sub_next p repl r.
Proof.
  intros H. destruct r as [|c r]; [apply sub_nil|].
  simpl sub_next. apply sub_copy. apply anchored_at_eol. exact H.
Qed.

(** A line at whose start the pattern does not match is copied. *)
Lemma sub_line prev l r :
  one_line l -> at_eol r = true ->
  match_at p false prev (l ++ r) = None ->
  sub_from p repl prev (l ++ r) 0 = l ++ sub_next p repl r.
Proof.
  intros Hl Hr Hm. destruct l as [|c l].
  - simpl. apply sub_at_eol. exact Hr.
  - simpl app in *. rewrite sub_copy by exact Hm.
    unfold one_line in Hl. simpl in Hl. apply andb_prop in Hl as [Hc Hl].
    f_equal. rewrite sub_inside_line; [|exact Hl|].
    + f_equal. apply sub_at_eol. exact Hr.
    + simpl. unfold not_newline in Hc. destruct (c =? LF)%N; [discriminate | reflexivity].
Qed.

End Anchored.

(** * Lines *)

Lemma unlines_cons l l' ls : unlines (l :: l' :: ls) = l ++ LF :: unlines (l' :: ls).
Proof. reflexivity. Qed.

Lemma at_eol_unlines_tail ls :
  at_eol (match ls with [] => [] | _ :: _ => LF :: unlines ls end) = true.
Proof. destruct ls; reflexivity. Qed.

Lemma unlines_split l ls :
  unlines (l :: ls) = l ++ match ls with [] => [] | _ :: _ => LF :: unlines ls end.
Proof. destruct ls; [symmetry; apply app_nil_r | reflexivity]. Qed.

Lemma lines_nonempty s : lines s <> [].
Proof.
  destruct s as [|c s]; simpl; [discriminate|].
  destruct (c =? LF)%N; [discriminate|]. destruct (lines s); discriminate.
Qed.

Lemma unlines_lines s : unlines (lines s) = s.
Proof.
  induction s as [|c s IH]; [reflexivity|].
  simpl. destruct (N.eqb_spec c LF) as [->|Hc].
  - pose proof (lines_nonempty s) as Hn.
    destruct (lines s) as [|l ls]; [congruence|].
    rewrite unlines_cons. simpl. rewrite IH. reflexivity.
  - pose proof (lines_nonempty s) as Hn.
    destruct (lines s) as [|l ls]; [congruence|].
    rewrite unlines_split in IH. rewrite unlines_split. simpl. rewrite IH. reflexivity.
Qed.

Lemma lines_one_line s : Forall one_line (lines s).
Proof.
  induction s as [|c s IH]; simpl.
  - constructor; [reflexivity | constructor].
  - destruct (N.eqb_spec c LF) as [->|Hc].
    + constructor; [reflexivity | exact IH].
    + pose proof (lines_nonempty s) as Hn.
      destruct (lines s) as [|l ls]; [congruence|].
      inversion IH as [|? ? Hl Hls]; subst. constructor; [|exact Hls].
      unfold one_line in *. simpl. rewrite Hl.
      unfold not_newline. destruct (N.eqb_spec c LF); [congruence | reflexivity].
Qed.

(** * Texts a substitution leaves alone *)

Section Fixed.

Variable p : pattern.
Hypothesis Hp : anchored p.
Variable repl : text.

Lemma sub_unlines_fixed ls prev :
  Forall one_line ls -> Forall (no_match_on p) ls -> at_bol prev = true ->
  sub_from p repl prev (unlines ls) 0 = unlines ls.
Proof.
  revert prev. induction ls as [|l ls IH]; intros prev H1 H2 Hb.
  - apply sub_nil. exact Hp.
  - inversion H1 as [|? ? Hl H1']; subst. inversion H2 as [|? ? Hn H2']; subst.
    rewrite unlines_split.
    rewrite sub_line; auto using at_eol_unlines_tail.
    + f_equal. destruct ls as [|l' ls]; [reflexivity|].
      simpl sub_next. f_equal. apply IH; auto.
    + rewrite anchored_bol by auto. apply Hn. apply at_eol_unlines_tail.
Qed.

Lemma sub_fixed ls :
  Forall one_line ls -> Forall (no_match_on p) ls -> sub p repl (unlines ls) = unlines ls.
Proof. intros. apply sub_unlines_fixed; auto. Qed.

End Fixed.


(** * Literals and keywords *)

Lemma starts_with_spec w s : starts_with w s = true <-> exists s', s = w ++ s'.
Proof.
  revert s. induction w as [|a w IH]; intros s; simpl.
  - split; eauto.
  - destruct s as [|c s].
    + split; [discriminate | intros [s' H]; discriminate].
    + rewrite andb_true_iff, N.eqb_eq, IH. split.
      * intros [-> [s' ->]]. eauto.
      * intros [s' H]. injection H as -> ->. eauto.
Qed.

Lemma starts_with_line kw l r :
  forallb not_newline kw = true -> at_eol r = true ->
  starts_with kw (l ++ r) = starts_with kw l.
Proof.
  intros Hkw Hr. revert l. induction kw as [|a kw IH]; intros l; [reflexivity|].
  simpl in Hkw. apply andb_prop in Hkw as [Ha Hkw].
  destruct l as [|c l]; simpl.
  - destruct r as [|c r]; [reflexivity|]. simpl in Hr. apply N.eqb_eq in Hr. subst c.
    unfold not_newline in Ha. rewrite N.eqb_sym. destruct (a =? LF)%N; [discriminate | reflexivity].
  - rewrite IH by exact Hkw. reflexivity.
Qed.

Lemma run_literal w p k prev s :
  run (literal_codes w ++ p) k prev s =
  if starts_with w s then run p k (last_of prev w) (drop (length w) s) else None.
Proof.
  revert prev s. induction w as [|a w IH]; intros prev s.
  - simpl. rewrite drop_0. reflexivity.
  - simpl. destruct s as [|c s]; [reflexivity|].
    unfold is_char at 1. destruct (N.eqb_spec c a) as [->|Hc]; [|reflexivity].
    simpl. rewrite last_of_cons. apply IH.
Qed.

Lemma derives_literal w p prev s r :
  derives (literal_codes w ++ p) prev s r <->
  exists s', s = w ++ s' /\ derives p (last_of prev w) s' r.
Proof.
  revert prev s. induction w as [|a w IH]; intros prev s.
  - simpl. split; [eauto | intros (s' & -> & H); exact H].
  - simpl. split.
    + intros (c & s' & -> & Hc & H). apply N.eqb_eq in Hc. subst c.
      apply IH in H as (s2 & -> & H). rewrite last_of_cons. eauto.
    + intros (s' & -> & H). rewrite last_of_cons in H.
      exists a, (w ++ s'). split; [reflexivity|]. split; [apply N.eqb_refl|].
      apply IH. eauto.
Qed.

Lemma anchored_import_re : anchored import_re.
Proof. eexists _, _. split; [reflexivity | discriminate]. Qed.

Lemma anchored_import_braces_re : anchored import_braces_re.
Proof. eexists _, _. split; [reflexivity | discriminate]. Qed.

Lemma anchored_export_re : anchored export_re.
Proof. eexists _, _. split; [reflexivity | discriminate]. Qed.

Lemma import_re_keyword : exists p, import_re = keyword_re kw_import p.
Proof. eexists. reflexivity. Qed.

Lemma import_braces_re_keyword : exists p, import_braces_re = keyword_re kw_import p.
Proof. eexists. reflexivity. Qed.

Lemma export_re_keyword : export_re = keyword_re kw_export [].
Proof. reflexivity. Qed.

Lemma drop_keyword kw l r :
  starts_with kw l = true -> drop (length kw) (l ++ r) = drop (length kw) l ++ r.
Proof.
  intros H. apply starts_with_spec in H as [l' ->].
  rewrite <- app_assoc, !drop_app_length. reflexivity.
Qed.

(** A line that does not begin with the keyword starts no match. *)
Lemma keyword_no_match kw p l :
  forallb not_newline kw = true -> keyword_line kw l = false ->
  no_match_on (keyword_re kw p) l.
Proof.
  intros Hkw Hl r Hr. unfold match_at, keyword_re. simpl.
  rewrite run_literal, starts_with_line by auto.
  destruct (starts_with kw l) eqn:E; [|reflexivity].
  rewrite drop_keyword by exact E.
  unfold keyword_line in Hl. rewrite E in Hl. simpl in Hl.
  destruct (drop (length kw) l) as [|c l'] eqn:D.
  - discriminate.
  - simpl. rewrite Hl. reflexivity.
Qed.

Lemma plain_no_import p l :
  plain_line l -> no_match_on (keyword_re kw_import p) l.
Proof. intros [H _]. apply keyword_no_match; [reflexivity | exact H]. Qed.

Lemma plain_no_export p l :
  plain_line l -> no_match_on (keyword_re kw_export p) l.
Proof. intros [_ H]. apply keyword_no_match; [reflexivity | exact H]. Qed.

(** A text of plain lines is left alone by all three substitutions. *)
Lemma plain_lines_fixed ls :
  Forall one_line ls -> Forall plain_line ls ->
  remove_imports_exports (unlines ls) = unlines ls.
Proof.
  intros H1 H2. unfold remove_imports_exports.
  destruct import_re_keyword as [p1 E1]. destruct import_braces_re_keyword as [p2 E2].
  rewrite (sub_fixed import_re anchored_import_re); auto.
  2:{ rewrite E1. eapply Forall_impl; [exact H2|]. intros l. apply plain_no_import. }
  rewrite (sub_fixed import_braces_re anchored_import_braces_re); auto.
  2:{ rewrite E2. eapply Forall_impl; [exact H2|]. intros l. apply plain_no_import. }
  rewrite (sub_fixed export_re anchored_export_re); auto.
  rewrite export_re_keyword. eapply Forall_impl; [exact H2|]. intros l. apply plain_no_export.
Qed.


(** * Runs of code points *)

Lemma take_drop_while f s : take_while f s ++ drop_while f s = s.
Proof.
  induction s as [|c s IH]; [reflexivity|]. simpl.
  destruct (f c); simpl; [rewrite IH|]; reflexivity.
Qed.

Lemma drop_while_app f s r :
  drop_while f s <> [] -> drop_while f (s ++ r) = drop_while f s ++ r.
Proof.
  induction s as [|c s IH]; simpl; [congruence|].
  destruct (f c); [exact IH | reflexivity].
Qed.

Lemma drop_while_all f w s : forallb f w = true -> drop_while f (w ++ s) = drop_while f s.
Proof.
  induction w as [|c w IH]; simpl; [reflexivity|].
  intros H. apply andb_prop in H as [-> H]. auto.
Qed.

Lemma one_line_app a b : one_line (a ++ b) <-> one_line a /\ one_line b.
Proof. unfold one_line. rewrite forallb_app, andb_true_iff. reflexivity. Qed.

Lemma one_line_not_bol prev m :
  one_line m -> m <> [] -> at_bol (last_of prev m) = false.
Proof.
  revert prev. induction m as [|c m IH]; intros prev Hm Hn; [congruence|].
  rewrite last_of_cons. unfold one_line in Hm. simpl in Hm.
  apply andb_prop in Hm as [Hc Hm].
  destruct m as [|d m].
  - simpl. unfold not_newline in Hc. destruct (c =? LF)%N; [discriminate | reflexivity].
  - apply IH; [exact Hm | discriminate].
Qed.

(** * A match within a line *)

Section LineMatch.

Variable p : pattern.
Hypothesis Hp : anchored p.
Variable repl : text.

(** The pattern matches the start [m] of a line: the match is replaced and
    the rest [l] of the line copied. *)
Lemma sub_line_match prev m l r :
  m <> [] -> one_line (m ++ l) -> at_eol r = true ->
  match_at p false prev (m ++ l ++ r) = Some (l ++ r) ->
  sub_from p repl prev (m ++ l ++ r) 0 = repl ++ l ++ sub_next p repl r.
Proof.
  intros Hm Hl Hr H.
  destruct (sub_match p Hp repl _ _ _ H) as (c & m' & E & ->).
  f_equal. change (c :: m' ++ l ++ r) with ((c :: m') ++ l ++ r) in E.
  apply app_inv_tail in E. rewrite <- last_of_cons with (prev := prev), <- E.
  apply one_line_app in Hl as [Hm1 Hl1].
  destruct l as [|d l].
  - simpl. apply sub_at_eol; assumption.
  - rewrite sub_inside_line; auto using one_line_not_bol.
    f_equal. apply sub_at_eol; assumption.
Qed.

End LineMatch.

(** * The export pattern *)

Lemma max_repeat_greedy cls lo prev s :
  max_repeat cls (fun _ r => Some r) lo None prev s =
  if lo <=? length (take_while cls s) then Some (drop_while cls s) else None.
Proof.
  revert lo prev. induction s as [|c s IH]; intros lo prev.
  - simpl. destruct lo; reflexivity.
  - simpl. destruct (cls c) eqn:E; simpl.
    + rewrite IH.
      destruct (Nat.leb_spec (pred lo) (length (take_while cls s))) as [H|H];
        destruct (Nat.leb_spec lo (S (length (take_while cls s)))) as [H'|H'];
        try lia; [reflexivity|].
      destruct lo; [lia | reflexivity].
    + destruct lo; reflexivity.
Qed.

Lemma export_match prev s :
  match_at export_re false prev s =
  if at_bol prev && starts_with kw_export s &&
     match drop 6 s with c :: _ => is_space c | [] => false end
  then Some (drop_while is_space (drop 6 s)) else None.
Proof.
  unfold match_at. change export_re with (keyword_re kw_export []).
  unfold keyword_re. cbn [run]. destruct (at_bol prev); [|reflexivity].
  rewrite run_literal. destruct (starts_with kw_export s); [|reflexivity].
  simpl. change (length kw_export) with 6.
  rewrite max_repeat_greedy.
  destruct (drop 6 s) as [|c s']; [reflexivity|].
  simpl. destruct (is_space c); reflexivity.
Qed.

Lemma export_line prev l r :
  one_line l -> export_has_operand l = true -> at_bol prev = true -> at_eol r = true ->
  sub_from export_re [] prev (l ++ r) 0 = strip_export l ++ sub_next export_re [] r.
Proof.
  intros Hl Ho Hb Hr.
  pose proof (export_match prev (l ++ r)) as M.
  rewrite Hb, starts_with_line in M by auto.
  unfold strip_export. unfold export_has_operand in Ho.
  destruct (starts_with kw_export l) eqn:E.
  2:{ apply sub_line; auto using anchored_export_re. }
  apply starts_with_spec in E as [l' ->].
  change (drop 6 ((kw_export ++ l') ++ r)) with (l' ++ r) in M.
  change (drop 6 (kw_export ++ l')) with l' in *.
  cbn [andb negb orb] in M, Ho.
  destruct l' as [|c l'']; [simpl in Ho; discriminate|].
  cbn [app drop_while] in M, Ho. destruct (is_space c) eqn:Ec.
  2:{ apply sub_line; auto using anchored_export_re. }
  destruct (drop_while is_space l'') as [|d l3] eqn:D; [discriminate|].
  rewrite drop_while_app in M by (rewrite D; discriminate). rewrite D in M.
  pose proof (take_drop_while is_space l'') as Hsplit. rewrite D in Hsplit.
  set (w := take_while is_space l'') in *.
  assert (El : (kw_export ++ c :: l'') ++ r = (kw_export ++ c :: w) ++ (d :: l3) ++ r).
  { rewrite <- Hsplit. rewrite <- !app_assoc. simpl. rewrite <- !app_assoc. reflexivity. }
  rewrite El in *.
  rewrite (sub_line_match export_re anchored_export_re); auto.
  rewrite <- Hsplit in Hl. rewrite <- app_assoc. exact Hl.
Qed.

Lemma export_lines ls prev :
  Forall one_line ls -> Forall (fun l => export_has_operand l = true) ls ->
  at_bol prev = true ->
  sub_from export_re [] prev (unlines ls) 0 = unlines (map strip_export ls).
Proof.
  revert prev. induction ls as [|l ls IH]; intros prev H1 H2 Hb.
  - apply sub_nil. exact anchored_export_re.
  - inversion H1 as [|? ? Hl H1']; subst. inversion H2 as [|? ? Ho H2']; subst.
    rewrite unlines_split. rewrite export_line; auto using at_eol_unlines_tail.
    simpl map. rewrite unlines_split. f_equal.
    destruct ls as [|l' ls]; [reflexivity|].
    simpl sub_next. simpl map. f_equal. apply IH; auto.
Qed.


(** * Following a match along one line *)

(** [u] is what is left of the current line and [R] the text from the end
    of that line on.  Code points other than the line feed are taken from
    [u]. *)
Lemma line_step R u w s' :
  at_eol R = true -> forallb not_newline w = true -> u ++ R = w ++ s' ->
  exists u', u = w ++ u' /\ s' = u' ++ R.
Proof.
  intros HR. revert u. induction w as [|c w IH]; intros u Hw E.
  - exists u. auto.
  - simpl in Hw. apply andb_prop in Hw as [Hc Hw].
    destruct u as [|d u].
    + simpl in E. subst R. simpl in HR. unfold not_newline in Hc.
      rewrite HR in Hc. discriminate.
    + simpl in E. injection E as -> E. apply IH in E as (u' & -> & ->); auto.
      exists u'. auto.
Qed.

(** A run of whitespace may go past the end of the line. *)
Lemma line_cross {A} (R u w s' : list A) :
  u ++ R = w ++ s' ->
  (exists u', u = w ++ u' /\ s' = u' ++ R) \/
  (exists w', w' <> [] /\ w = u ++ w' /\ R = w' ++ s').
Proof.
  revert u. induction w as [|c w IH]; intros u E.
  - left. exists u. auto.
  - destruct u as [|d u].
    + right. exists (c :: w). simpl in *. repeat split; auto; discriminate.
    + simpl in E. injection E as -> E. apply IH in E as [(u' & -> & ->)|(w' & Hn & -> & ->)].
      * left. exists u'. auto.
      * right. exists w'. auto.
Qed.

Lemma occurs_app w a b : occurs w (a ++ w ++ b) = true.
Proof.
  induction a as [|c a IH].
  - simpl. assert (H : starts_with w (w ++ b) = true) by (apply starts_with_spec; eauto).
    destruct (w ++ b); simpl; simpl in H; rewrite H; reflexivity.
  - simpl. rewrite IH. apply orb_true_r.
Qed.

(** * The import patterns *)

Lemma import_re_parts :
  import_re =
  At_beginning_line :: literal_codes kw_import ++
    spaces1 :: lazy_any :: literal_codes kw_from ++ quoted_path.
Proof. reflexivity. Qed.

Lemma import_braces_re_parts :
  import_braces_re =
  At_beginning_line :: literal_codes kw_import ++
    spaces1 :: In_set (is_char 123%N) :: Max_repeat 0 None (not_char 125%N) ::
    In_set (is_char 125%N) :: spaces1 :: literal_codes kw_from ++ quoted_path.
Proof. reflexivity. Qed.

(** Both import patterns start with [import\s+]. *)
Lemma derives_import_prefix p prev s r :
  derives (At_beginning_line :: literal_codes kw_import ++ spaces1 :: p) prev s r ->
  exists w1 s2, s = kw_import ++ w1 ++ s2 /\ forallb is_space w1 = true /\
    1 <= length w1 /\ derives p (last_of (last_of prev kw_import) w1) s2 r.
Proof.
  cbn [derives]. intros [_ H]. apply derives_literal in H as (s1 & -> & H).
  cbn [derives spaces1] in H. destruct H as (w1 & s2 & -> & Hw & Hlo & _ & H).
  eauto 10.
Qed.

Lemma broken_import_parts l :
  broken_import l = true ->
  exists l', l = kw_import ++ l' /\
    (exists d l3, drop_while is_space l' = d :: l3 /\ d <> 123%N) /\
    occurs kw_from l = false.
Proof.
  unfold broken_import. rewrite !andb_true_iff. intros [[[H1 _] H3] H4].
  apply starts_with_spec in H1 as [l' ->]. exists l'. split; [reflexivity|].
  change (drop 6 (kw_import ++ l')) with l' in H3.
  split.
  - destruct (drop_while is_space l') as [|d l3]; [discriminate|].
    exists d, l3. split; [reflexivity|]. intros ->. discriminate.
  - apply negb_true_iff in H4. exact H4.
Qed.

(** On the first line of a broken import the whitespace after [import]
    ends before the binding. *)
Lemma broken_import_spaces l' r w1 s2 d l3 :
  drop_while is_space l' = d :: l3 -> forallb is_space w1 = true ->
  l' ++ r = w1 ++ s2 ->
  exists u, l' = w1 ++ u /\ s2 = u ++ r.
Proof.
  intros D Hw E. apply line_cross in E as [(u & -> & ->)|(w' & _ & -> & _)]; [eauto|].
  rewrite forallb_app in Hw. apply andb_prop in Hw as [Hw _].
  rewrite <- (app_nil_r l'), drop_while_all in D by exact Hw. discriminate.
Qed.

Lemma broken_import_no_import l :
  one_line l -> broken_import l = true -> no_match_on import_re l.
Proof.
  intros Hl Hb r Hr.
  destruct (match_at import_re false None (l ++ r)) as [r'|] eqn:M; [exfalso | reflexivity].
  apply match_at_sound in M. rewrite import_re_parts in M.
  apply derives_import_prefix in M as (w1 & s2 & E & Hw1 & _ & M).
  cbn [derives lazy_any] in M. destruct M as (x & s3 & -> & Hx & _ & _ & M).
  apply derives_literal in M as (s4 & -> & _).
  apply broken_import_parts in Hb as (l' & -> & (d & l3 & D & _) & Ho).
  rewrite <- app_assoc in E. apply app_inv_head in E.
  eapply broken_import_spaces in E as (u & -> & E); eauto.
  symmetry in E. apply line_step in E as (u2 & -> & E); auto.
  symmetry in E. apply line_step in E as (u3 & -> & E); auto.
  rewrite !app_assoc, <- (app_assoc _ kw_from u3), occurs_app in Ho. discriminate.
Qed.

Lemma broken_import_no_braces l :
  one_line l -> broken_import l = true -> no_match_on import_braces_re l.
Proof.
  intros Hl Hb r Hr.
  destruct (match_at import_braces_re false None (l ++ r)) as [r'|] eqn:M;
    [exfalso | reflexivity].
  apply match_at_sound in M. rewrite import_braces_re_parts in M.
  apply derives_import_prefix in M as (w1 & s2 & E & Hw1 & _ & M).
  cbn [derives] in M. destruct M as (c & s3 & -> & Hc & _).
  apply N.eqb_eq in Hc. subst c.
  apply broken_import_parts in Hb as (l' & -> & (d & l3 & D & Hd) & _).
  rewrite <- app_assoc in E. apply app_inv_head in E.
  eapply broken_import_spaces in E as (u & -> & E); eauto.
  symmetry in E. apply (line_step r u [123%N]) in E as (u2 & -> & E); auto.
  rewrite drop_while_all in D by exact Hw1. simpl in D. injection D as <- _.
  congruence.
Qed.

Lemma broken_import_no_export l :
  broken_import l = true -> no_match_on export_re l.
Proof.
  intros Hb. rewrite export_re_keyword. apply keyword_no_match; [reflexivity|].
  apply broken_import_parts in Hb as (l' & -> & _). reflexivity.
Qed.


Lemma last_solid_blank b : forallb is_space b = true -> last_solid b = None.
Proof.
  induction b as [|c b IH]; [reflexivity|]. simpl. intros H.
  apply andb_prop in H as [-> H]. rewrite IH by exact H. reflexivity.
Qed.

Lemma last_solid_app a c b :
  is_space c = false -> forallb is_space b = true -> last_solid (a ++ c :: b) = Some c.
Proof.
  intros Hc Hb. induction a as [|d a IH]; simpl.
  - rewrite last_solid_blank, Hc by exact Hb. reflexivity.
  - rewrite IH. reflexivity.
Qed.

Lemma blank_space w :
  forallb is_blank w = true -> forallb is_space w = true /\ forallb not_newline w = true.
Proof.
  induction w as [|c w IH]; [auto|]. simpl. unfold is_blank at 1.
  rewrite !andb_true_iff. intros [[-> ->] H]. apply IH in H as [-> ->]. auto.
Qed.

Lemma is_quote_solid c :
  is_quote c = true -> not_newline c = true /\ is_space c = false.
Proof.
  unfold is_quote. rewrite orb_true_iff, !N.eqb_eq. intros [->| ->]; split; reflexivity.
Qed.

Lemma semicolons_line sm : forallb (is_char 59%N) sm = true -> forallb not_newline sm = true.
Proof.
  induction sm as [|c sm IH]; [auto|]. simpl. unfold is_char at 1.
  rewrite !andb_true_iff, N.eqb_eq. intros [-> H]. auto.
Qed.

Lemma at_eol_line u R :
  one_line u -> at_eol (u ++ R) = true -> u = [].
Proof.
  destruct u as [|d u]; [reflexivity|]. unfold one_line. simpl.
  unfold not_newline. intros H E. rewrite E in H. discriminate.
Qed.

Lemma import_statement_line stmt : import_statement stmt -> one_line stmt.
Proof.
  intros [sp1 binding sp2 q1 path q2 semi sp3 _ H1 Hb _ H2 Hq1 Hp Hq2 Hs H3].
  apply blank_space in H1 as [_ H1]. apply blank_space in H2 as [_ H2].
  apply blank_space in H3 as [_ H3].
  apply is_quote_solid in Hq1 as [Hq1 _]. apply is_quote_solid in Hq2 as [Hq2 _].
  unfold one_line.
  repeat (rewrite ?forallb_app; cbn [forallb]).
  rewrite H1, Hb, H2, Hq1, Hp, Hq2, H3. destruct Hs as [-> | ->]; reflexivity.
Qed.

Lemma import_statement_last stmt :
  import_statement stmt ->
  exists c, last_solid stmt = Some c /\ c <> 116%N /\ c <> 109%N.
Proof.
  intros [sp1 binding sp2 q1 path q2 semi sp3 _ _ _ _ _ _ _ Hq2 Hs H3].
  apply blank_space in H3 as [H3 _].
  destruct Hs as [-> | ->].
  - exists q2. rewrite !app_assoc, app_comm_cons, !app_assoc, app_nil_l.
    rewrite <- !app_assoc.
    replace (kw_import ++ sp1 ++ binding ++ kw_from ++ sp2 ++ (q1 :: path) ++ q2 :: sp3)
      with ((kw_import ++ sp1 ++ binding ++ kw_from ++ sp2 ++ q1 :: path) ++ q2 :: sp3)
      by (rewrite <- !app_assoc; reflexivity).
    apply is_quote_solid in Hq2 as Hq. destruct Hq as [_ Hq].
    rewrite last_solid_app by auto. split; [reflexivity|].
    split; intros ->; discriminate.
  - exists 59%N.
    replace (kw_import ++ sp1 ++ binding ++ kw_from ++ sp2 ++ q1 :: path ++ q2 :: [59%N] ++ sp3)
      with ((kw_import ++ sp1 ++ binding ++ kw_from ++ sp2 ++ q1 :: path ++ [q2]) ++ 59%N :: sp3)
      by (rewrite <- !app_assoc; cbn [app]; rewrite <- !app_assoc; reflexivity).
    rewrite last_solid_app by auto. split; [reflexivity|]. split; discriminate.
Qed.

Lemma import_statement_derives stmt prev R :
  import_statement stmt -> at_bol prev = true -> at_eol R = true ->
  derives import_re prev (stmt ++ R) R.
Proof.
  intros [sp1 binding sp2 q1 path q2 semi sp3 N1 H1 Hb N2 H2 Hq1 Hp Hq2 Hs H3] Hbol HR.
  apply blank_space in H1 as [H1 _]. apply blank_space in H2 as [H2 _].
  apply blank_space in H3 as [H3 _].
  rewrite import_re_parts. cbn [derives]. split; [exact Hbol|].
  apply derives_literal. eexists. split; [symmetry; apply app_assoc|].
  cbn [derives spaces1]. eexists sp1, _. split; [symmetry; apply app_assoc|].
  split; [exact H1|]. split; [destruct sp1; [congruence | simpl; lia]|]. split; [exact I|].
  cbn [derives lazy_any]. eexists binding, _. split; [symmetry; apply app_assoc|].
  split; [exact Hb|]. split; [lia|]. split; [exact I|].
  apply derives_literal. eexists. split; [symmetry; apply app_assoc|].
  unfold quoted_path. cbn [derives spaces1].
  eexists sp2, _. split; [symmetry; apply app_assoc|].
  split; [exact H2|]. split; [destruct sp2; [congruence | simpl; lia]|]. split; [exact I|].
  cbn [derives]. eexists q1, _. split; [reflexivity|]. split; [exact Hq1|].
  cbn [derives lazy_any]. eexists path, _. split; [symmetry; apply app_assoc|].
  split; [exact Hp|]. split; [lia|]. split; [exact I|].
  cbn [derives]. eexists q2, _. split; [reflexivity|]. split; [exact Hq2|].
  cbn [derives opt_semicolon]. eexists semi, _.
  split; [symmetry; apply app_assoc|].
  split; [destruct Hs as [-> | ->]; reflexivity|].
  split; [lia|]. split; [destruct Hs as [-> | ->]; simpl; lia|].
  cbn [derives spaces0]. eexists sp3, R. split; [reflexivity|].
  split; [exact H3|]. split; [lia|]. split; [exact I|].
  cbn [derives]. auto.
Qed.

(** Like [line_step], keeping track of the line. *)
Lemma line_step_one R u w s' :
  at_eol R = true -> one_line u -> forallb not_newline w = true -> w ++ s' = u ++ R ->
  exists u', u = w ++ u' /\ s' = u' ++ R /\ one_line u'.
Proof.
  intros HR Hu Hw E. symmetry in E. apply line_step in E as (u' & -> & ->); auto.
  exists u'. apply one_line_app in Hu as [_ Hu]. auto.
Qed.

Lemma line_cross_one R u w s' :
  one_line u -> forallb is_space w = true -> w ++ s' = u ++ R ->
  (exists u', u = w ++ u' /\ s' = u' ++ R /\ one_line u') \/
  (exists w', w' <> [] /\ forallb is_space u = true /\ forallb is_space w' = true /\
     R = w' ++ s').
Proof.
  intros Hu Hw E. symmetry in E. apply line_cross in E as [(u' & -> & ->)|(w' & Hn & -> & ->)].
  - left. exists u'. apply one_line_app in Hu as [_ Hu]. auto.
  - right. rewrite forallb_app in Hw. apply andb_prop in Hw as [Hw1 Hw2]. eauto 10.
Qed.

(** A match that begins with a one-line statement ends with it, when no
    blank line follows. *)
Lemma import_end stmt prev R r :
  one_line stmt ->
  (exists c, last_solid stmt = Some c /\ c <> 116%N /\ c <> 109%N) ->
  solid_after R ->
  derives import_re prev (stmt ++ R) r -> r = R.
Proof.
  intros Hl (c0 & Hlast & Ht & Hm) HR M.
  assert (HeR : at_eol R = true).
  { destruct HR as [-> | (w & c & R' & -> & _)]; reflexivity. }
  rewrite import_re_parts in M.
  apply derives_import_prefix in M as (w1 & s2 & E & Hw1 & _ & M).
  symmetry in E. apply line_step_one in E as (u0 & -> & E & Hu0); auto.
  apply line_cross_one in E as [(u1 & -> & -> & Hu1)|(w' & _ & Hs & _)]; auto.
  2:{ change kw_import with (codes "impor" ++ [116%N]) in Hlast.
      rewrite <- app_assoc in Hlast. cbn [app] in Hlast.
      rewrite last_solid_app in Hlast by auto. congruence. }
  cbn [derives lazy_any] in M. destruct M as (x & s3 & E & Hx & _ & _ & M).
  symmetry in E. apply line_step_one in E as (u2 & -> & -> & Hu2); auto.
  apply derives_literal in M as (s4 & E & M).
  symmetry in E. apply line_step_one in E as (u3 & -> & -> & Hu3); auto.
  unfold quoted_path in M. cbn [derives spaces1] in M.
  destruct M as (w2 & s5 & E & Hw2 & _ & _ & M).
  symmetry in E. apply line_cross_one in E as [(u4 & -> & -> & Hu4)|(w' & _ & Hs & _)]; auto.
  2:{ change kw_from with (codes "fro" ++ [109%N]) in Hlast.
      rewrite !app_assoc in Hlast. rewrite <- (app_assoc _ [109%N] u3) in Hlast.
      cbn [app] in Hlast.
      rewrite last_solid_app in Hlast by auto. congruence. }
  cbn [derives] in M. destruct M as (q1 & s6 & E & Hq1 & M).
  apply is_quote_solid in Hq1 as [Hq1 _].
  symmetry in E. apply (line_step_one R u4 [q1]) in E as (u5 & -> & -> & Hu5); auto.
  2:{ simpl. rewrite Hq1. reflexivity. }
  cbn [derives lazy_any] in M. destruct M as (pth & s7 & E & Hp & _ & _ & M).
  symmetry in E. apply line_step_one in E as (u6 & -> & -> & Hu6); auto.
  cbn [derives] in M. destruct M as (q2 & s8 & E & Hq2 & M).
  apply is_quote_solid in Hq2 as [Hq2 _].
  symmetry in E. apply (line_step_one R u6 [q2]) in E as (u7 & -> & -> & Hu7); auto.
  2:{ simpl. rewrite Hq2. reflexivity. }
  cbn [derives opt_semicolon] in M. destruct M as (sm & s9 & E & Hsm & _ & _ & M).
  apply semicolons_line in Hsm.
  symmetry in E. apply line_step_one in E as (u8 & -> & -> & Hu8); auto.
  cbn [derives spaces0] in M. destruct M as (w3 & s10 & E & Hw3 & _ & _ & He & ->).
  symmetry in E.
  apply line_cross_one in E as [(u9 & -> & -> & Hu9)|(w' & Hn & _ & Hs & E)]; auto.
  - apply at_eol_line in He; [|exact Hu9]. subst u9. reflexivity.
  - exfalso. destruct HR as [-> | (w & c & R' & -> & Hw & Hc)].
    + destruct w'; [congruence | discriminate].
    + destruct w' as [|d w']; [congruence|]. simpl in E. injection E as Ed E.
      simpl in Hs. apply andb_prop in Hs as [_ Hs].
      apply blank_space in Hw as [_ Hw].
      apply line_cross in E as [(v & -> & ->)|(y & Hy & -> & E)].
      * assert (Hv : one_line (v ++ [c])).
        { rewrite forallb_app in Hw. apply andb_prop in Hw as [_ Hw].
          apply one_line_app. split; [exact Hw|].
          unfold one_line, not_newline. simpl.
          destruct (N.eqb_spec c LF) as [->|_]; [discriminate Hc | reflexivity]. }
        replace (v ++ c :: R') with ((v ++ [c]) ++ R') in He
          by (rewrite <- app_assoc; reflexivity).
        apply at_eol_line in He; [|exact Hv]. destruct v; discriminate.
      * destruct y as [|e y]; [congruence|]. simpl in E. injection E as <- _.
        rewrite forallb_app in Hs. apply andb_prop in Hs as [_ Hs].
        simpl in Hs. rewrite Hc in Hs. discriminate.
Qed.

Lemma import_match_exact stmt prev R :
  import_statement stmt -> at_bol prev = true -> solid_after R ->
  match_at import_re false prev (stmt ++ R) = Some R.
Proof.
  intros Hs Hb HR.
  assert (HeR : at_eol R = true).
  { destruct HR as [-> | (w & c & R' & -> & _)]; reflexivity. }
  destruct (match_at_complete import_re prev (stmt ++ R) R) as [r Hr].
  { apply import_statement_derives; auto. }
  rewrite Hr. f_equal. apply match_at_sound in Hr.
  eapply import_end; eauto using import_statement_line, import_statement_last.
Qed.


Lemma unlines_after l ls : unlines (l :: ls) = l ++ after_line ls.
Proof. apply unlines_split. Qed.

Lemma at_eol_after ls : at_eol (after_line ls) = true.
Proof. destruct ls; reflexivity. Qed.

Lemma blank_line_split l :
  blank_line l = false ->
  exists w c l', l = w ++ c :: l' /\ forallb is_space w = true /\ is_space c = false.
Proof.
  induction l as [|d l IH]; [discriminate|].
  unfold blank_line. simpl. destruct (is_space d) eqn:Hd.
  - intros H. apply IH in H as (w & c & l' & -> & Hw & Hc).
    exists (d :: w), c, l'. simpl. rewrite Hd, Hw. auto.
  - intros _. exists [], d, l. auto.
Qed.

Lemma solid_after_lines ls :
  Forall one_line ls -> no_blank_follows ls -> solid_after (after_line ls).
Proof.
  intros Hl H. destruct ls as [|l ls]; [left; reflexivity|].
  right. specialize (H l eq_refl). inversion Hl as [|? ? Hl1 _]; subst.
  apply blank_line_split in H as (w & c & l' & -> & Hw & Hc).
  exists w, c, (l' ++ after_line ls). split; [|split; [|exact Hc]].
  - unfold after_line at 1. rewrite unlines_after, <- app_assoc. reflexivity.
  - apply one_line_app in Hl1 as [Hl1 _]. unfold one_line in Hl1.
    clear - Hw Hl1. induction w as [|d w IH]; [reflexivity|].
    simpl in *. apply andb_prop in Hw as [Hd Hw]. apply andb_prop in Hl1 as [Hn Hl1].
    unfold is_blank at 1. rewrite Hd, Hn, IH by assumption. reflexivity.
Qed.

Lemma sub_next_plain p ls :
  anchored p -> Forall one_line ls -> Forall (no_match_on p) ls ->
  sub_next p [] (after_line ls) = after_line ls.
Proof.
  intros Hp H1 H2. destruct ls as [|l ls]; [reflexivity|].
  simpl. f_equal. apply sub_unlines_fixed; auto.
Qed.

Lemma plain_lines_no_import p ls :
  Forall plain_line ls -> Forall (no_match_on (keyword_re kw_import p)) ls.
Proof. intros H. eapply Forall_impl; [exact H|]. intros l. apply plain_no_import. Qed.

Lemma plain_lines_no_export p ls :
  Forall plain_line ls -> Forall (no_match_on (keyword_re kw_export p)) ls.
Proof. intros H. eapply Forall_impl; [exact H|]. intros l. apply plain_no_export. Qed.

(** ** Import statements among plain lines *)

Lemma import_statement_keyword l :
  import_statement l -> keyword_line kw_import l = true.
Proof.
  intros [sp1 binding sp2 q1 path q2 semi sp3 N1 H1 _ _ _ _ _ _ _ _].
  unfold keyword_line. apply andb_true_intro. split.
  - apply starts_with_spec. eauto.
  - change (length kw_import) with 6.
    change (drop 6 (kw_import ++ sp1 ++ binding ++ kw_from ++ sp2 ++
                    q1 :: path ++ q2 :: semi ++ sp3))
      with (sp1 ++ binding ++ kw_from ++ sp2 ++ q1 :: path ++ q2 :: semi ++ sp3).
    destruct sp1 as [|c sp1]; [congruence|].
    simpl in H1. apply andb_prop in H1 as [H1 _].
    unfold is_blank in H1. apply andb_prop in H1 as [H1 _]. exact H1.
Qed.

Lemma after_line_map (f : text -> text) ls :
  after_line (map f ls) =
  match ls with [] => [] | _ :: _ => LF :: unlines (map f ls) end.
Proof. destruct ls; reflexivity. Qed.

(** Every import statement is emptied and every plain line copied. *)
Lemma sub_import_statements ls prev :
  Forall one_line ls ->
  Forall (fun l => plain_line l \/ import_statement l) ls ->
  imports_followed ls -> at_bol prev = true ->
  sub_from import_re [] prev (unlines ls) 0 = unlines (map empty_if_import ls).
Proof.
  intros H1 H2. revert prev.
  destruct import_re_keyword as [q Eq].
  induction ls as [|l ls IH]; intros prev Hf Hb.
  - apply sub_nil. exact anchored_import_re.
  - inversion H1 as [|? ? Hl H1']; subst. inversion H2 as [|? ? Hk H2']; subst.
    destruct Hf as [Hn Hf].
    assert (Hnext : sub_next import_re [] (after_line ls) =
                    after_line (map empty_if_import ls)).
    { rewrite after_line_map. destruct ls as [|l' ls]; [reflexivity|].
      simpl sub_next. f_equal. apply IH; auto. }
    cbn [map]. rewrite !unlines_after.
    destruct Hk as [Hp|Hs].
    + unfold empty_if_import at 1. destruct Hp as [Hp _]. rewrite Hp.
      assert (Hm : match_at import_re false prev (l ++ after_line ls) = None).
      { rewrite anchored_bol by auto using anchored_import_re.
        rewrite Eq. apply keyword_no_match; auto using at_eol_after. }
      rewrite (sub_line import_re anchored_import_re [] prev l (after_line ls)
                 Hl (at_eol_after ls) Hm).
      f_equal. exact Hnext.
    + pose proof (import_statement_keyword l Hs) as Hkw.
      unfold empty_if_import at 1. rewrite Hkw.
      pose proof (import_match_exact l prev (after_line ls) Hs Hb
                    (solid_after_lines _ H1' (Hn Hkw))) as M.
      assert (Hne : l <> []) by (intros ->; inversion Hs).
      assert (Hl' : one_line (l ++ [])) by (rewrite app_nil_r; exact Hl).
      change (l ++ after_line ls) with (l ++ [] ++ after_line ls) in *.
      rewrite (sub_line_match import_re anchored_import_re [] prev l [] (after_line ls)
                 Hne Hl' (at_eol_after ls) M).
      exact Hnext.
Qed.

(** ** Texts whose import lines are complete statements *)

Lemma first_line_cut l T a b :
  one_line l -> l ++ T = a ++ LF :: b ->
  exists a', a = l ++ a' /\ T = a' ++ LF :: b.
Proof.
  intros Hl E. apply line_cross in E as [(u & -> & E)|(w & _ & -> & ->)].
  - destruct u as [|d u].
    + exists []. rewrite !app_nil_r. simpl in E. auto.
    + simpl in E. injection E as Ed _. subst d. apply one_line_app in Hl as [_ Hl].
      unfold one_line in Hl. cbn [forallb] in Hl. apply andb_prop in Hl as [Hl _].
      vm_compute in Hl. discriminate.
  - exists w. auto.
Qed.

Lemma unlines_cut ls a b :
  Forall one_line ls -> unlines ls = a ++ LF :: b ->
  exists ls1 ls2, ls = ls1 ++ ls2 /\ ls1 <> [] /\ ls2 <> [] /\ b = unlines ls2.
Proof.
  intros H. revert a. induction H as [|l ls Hl H IH]; intros a E.
  - destruct a; discriminate.
  - rewrite unlines_after in E. apply first_line_cut in E as (a' & -> & E); [|exact Hl].
    destruct ls as [|l' ls]; [destruct a'; discriminate|].
    simpl in E. destruct a' as [|d a'].
    + simpl in E. injection E as E. exists [l], (l' :: ls). subst b.
      repeat split; try discriminate.
    + simpl in E. injection E as _ E. apply IH in E as (ls1 & ls2 & E & N1 & N2 & ->).
      exists (l :: ls1), ls2. rewrite E. repeat split; auto; discriminate.
Qed.

Lemma import_re_ends :
  exists p, import_re = p ++ [At_end_line].
Proof.
  exists (At_beginning_line :: literal_codes kw_import ++
    spaces1 :: lazy_any :: literal_codes kw_from ++
    [spaces1; In_set is_quote; lazy_any; In_set is_quote; opt_semicolon; spaces0]).
  reflexivity.
Qed.

(** After the first substitution no line begins with [import]. *)
Lemma sub_import_clears n :
  forall ls prev, length ls <= n -> ls <> [] ->
  Forall one_line ls ->
  Forall (fun l => keyword_line kw_import l = true -> import_statement l) ls ->
  at_bol prev = true ->
  exists ls', ls' <> [] /\ Forall one_line ls' /\
    Forall (fun l => keyword_line kw_import l = false) ls' /\
    sub_from import_re [] prev (unlines ls) 0 = unlines ls'.
Proof.
  induction n as [|n IH]; intros ls prev Hn Hne H1 H2 Hb.
  { destruct ls; [congruence | simpl in Hn; lia]. }
  destruct ls as [|l ls]; [congruence|].
  inversion H1 as [|? ? Hl H1']; subst. inversion H2 as [|? ? Hi H2']; subst.
  rewrite unlines_after.
  destruct (keyword_line kw_import l) eqn:K.
  - specialize (Hi eq_refl).
    destruct (match_at_complete import_re prev (l ++ after_line ls) (after_line ls))
      as [r Hr].
    { apply import_statement_derives; auto using at_eol_after. }
    destruct (sub_match import_re anchored_import_re [] _ _ _ Hr) as (c & m & E & ->).
    assert (Hre : at_eol r = true).
    { apply match_at_sound in Hr. destruct import_re_ends as [q Eq]. rewrite Eq in Hr.
      eapply derives_end_of_line; eauto. }
    rewrite app_nil_l, sub_at_eol by auto using anchored_import_re.
    destruct r as [|d r].
    + exists [[]]. repeat split; try discriminate; repeat constructor.
    + simpl in Hre. apply N.eqb_eq in Hre. subst d.
      rewrite <- unlines_after in E.
      change (c :: m ++ LF :: r) with ((c :: m) ++ LF :: r) in E.
      apply unlines_cut in E as (ls1 & ls2 & E & N1 & N2 & ->); [|exact H1].
      assert (Hlen : length ls2 <= n).
      { apply (f_equal length) in E. rewrite length_app in E.
        destruct ls1; [congruence|]. simpl in *. lia. }
      assert (L2 : Forall one_line ls2).
      { rewrite E in H1. apply Forall_app in H1 as [_ H1]. exact H1. }
      assert (I2 : Forall (fun l => keyword_line kw_import l = true -> import_statement l) ls2).
      { rewrite E in H2. apply Forall_app in H2 as [_ H2]. exact H2. }
      destruct (IH ls2 (Some LF) Hlen N2 L2 I2 eq_refl) as (ls' & N' & L' & K' & E').
      exists ([] :: ls'). split; [discriminate|].
      split; [constructor; [reflexivity | exact L']|].
      split; [constructor; [reflexivity | exact K']|].
      simpl sub_next. rewrite E'. destruct ls'; [congruence | reflexivity].
  - destruct import_re_keyword as [q Eq].
    rewrite sub_line; auto using anchored_import_re, at_eol_after.
    2:{ rewrite anchored_bol by auto using anchored_import_re. rewrite Eq.
        apply keyword_no_match; auto using at_eol_after. }
    destruct ls as [|l' ls].
    + exists [l]. simpl. rewrite app_nil_r. repeat split; auto; discriminate.
    + assert (Hlen : length (l' :: ls) <= n) by (simpl in *; lia).
      assert (Hne' : l' :: ls <> []) by discriminate.
      destruct (IH (l' :: ls) (Some LF) Hlen Hne' H1' H2' eq_refl)
        as (ls' & N' & L' & K' & E').
      exists (l :: ls'). split; [discriminate|]. split; [constructor; auto|].
      split; [constructor; auto|].
      simpl. rewrite E'. rewrite unlines_after. destruct ls'; [congruence | reflexivity].
Qed.


(** * The claims about [remove_imports_exports]

    Every text is [unlines] of its [lines], each of them without a line
    feed ([unlines_lines], [lines_one_line]): a statement about
    [unlines ls] for all lists [ls] of such lines is one about all texts. *)

Lemma untouched_line_no_match l :
  one_line l -> plain_line l \/ broken_import l = true ->
  no_match_on import_re l /\ no_match_on import_braces_re l /\ no_match_on export_re l.
Proof.
  intros Hl [Hp|Hb].
  - destruct import_re_keyword as [p1 E1]. destruct import_braces_re_keyword as [p2 E2].
    rewrite E1, E2, export_re_keyword.
    auto using plain_no_import, plain_no_export.
  - auto using broken_import_no_import, broken_import_no_braces, broken_import_no_export.
Qed.

Lemma plain_nil : plain_line [].
Proof. split; reflexivity. Qed.

(** C1 (amended): an import statement broken before its [from], with a
    binding that does not open with a brace, is not recognized.  A text in
    which every line that begins with a keyword is the first line of such a
    statement comes back unchanged. *)
Theorem broken_imports_pass_through (ls : list text) :
  Forall one_line ls ->
  Forall (fun l => plain_line l \/ broken_import l = true) ls ->
  remove_imports_exports (unlines ls) = unlines ls.
Proof.
  intros H1 H2.
  assert (H : Forall (fun l => no_match_on import_re l /\
                      no_match_on import_braces_re l /\ no_match_on export_re l) ls).
  { apply Forall_forall. intros l Hin.
    apply untouched_line_no_match.
    - eapply Forall_forall in H1; eauto.
    - eapply Forall_forall in H2; eauto. }
  unfold remove_imports_exports.
  rewrite (sub_fixed import_re anchored_import_re); auto.
  2:{ eapply Forall_impl; [exact H|]. intros l (? & ? & ?). assumption. }
  rewrite (sub_fixed import_braces_re anchored_import_braces_re); auto.
  2:{ eapply Forall_impl; [exact H|]. intros l (? & ? & ?). assumption. }
  rewrite (sub_fixed export_re anchored_export_re); auto.
  eapply Forall_impl; [exact H|]. intros l (? & ? & ?). assumption.
Qed.

Lemma broken_imports_pass_through_witness :
  let ls := [codes "import a,"; codes "  b from 'p';"; codes "run(a, b);"] in
  Forall one_line ls /\
  Forall (fun l => plain_line l \/ broken_import l = true) ls /\
  remove_imports_exports (unlines ls) = unlines ls.
Proof.
  assert (H1 : Forall one_line
      [codes "import a,"; codes "  b from 'p';"; codes "run(a, b);"]).
  { repeat constructor. }
  assert (H2 : Forall (fun l => plain_line l \/ broken_import l = true)
      [codes "import a,"; codes "  b from 'p';"; codes "run(a, b);"]).
  { constructor; [right; reflexivity|].
    constructor; [left; split; reflexivity|].
    constructor; [left; split; reflexivity|]. constructor. }
  exact (conj H1 (conj H2 (broken_imports_pass_through _ H1 H2))).
Defined.

(** C1 as stated fails: an import whose brace group spans four lines is
    removed as a whole by the second pattern. *)
Lemma multi_line_import_removed :
  let t := unlines [codes "import {"; codes "  a,"; codes "  b"; codes "} from 'p';"] in
  remove_imports_exports t = [] /\ remove_imports_exports t <> t.
Proof. split; [vm_compute; reflexivity | vm_compute; discriminate]. Qed.

(** C2 (amended): a second application changes nothing when the first
    one leaves no line that begins with [import] or [export]. *)
Theorem idempotent_on_plain_output (t : text) :
  Forall plain_line (lines (remove_imports_exports t)) ->
  remove_imports_exports (remove_imports_exports t) = remove_imports_exports t.
Proof.
  intros H. set (u := remove_imports_exports t) in *.
  rewrite <- (unlines_lines u).
  apply plain_lines_fixed; [apply lines_one_line | exact H].
Qed.

Lemma idempotent_on_plain_output_witness :
  let t := unlines [codes "import X from 'p';"; codes "export class A {}"] in
  Forall plain_line (lines (remove_imports_exports t)) /\
  remove_imports_exports (remove_imports_exports t) = remove_imports_exports t.
Proof.
  assert (H : Forall plain_line (lines (remove_imports_exports
      (unlines [codes "import X from 'p';"; codes "export class A {}"])))).
  { vm_compute. repeat constructor. }
  exact (conj H (idempotent_on_plain_output _ H)).
Defined.

(** C2 as stated fails: of two [export] keywords in a row one is removed by
    each application. *)
Lemma not_idempotent :
  let t := codes "export export x" in
  remove_imports_exports (remove_imports_exports t) <> remove_imports_exports t.
Proof. vm_compute. discriminate. Qed.

Lemma empty_if_import_plain ls :
  Forall (fun l => plain_line l \/ import_statement l) ls ->
  Forall plain_line (map empty_if_import ls).
Proof.
  intros H. apply Forall_fmap. eapply Forall_impl; [exact H|].
  intros l [Hp|Hs]; simpl; unfold empty_if_import.
  - destruct Hp as [Hi He]. rewrite Hi. split; assumption.
  - rewrite (import_statement_keyword l Hs). apply plain_nil.
Qed.

Lemma empty_if_import_one_line ls :
  Forall one_line ls -> Forall one_line (map empty_if_import ls).
Proof.
  intros H. apply Forall_fmap. eapply Forall_impl; [exact H|].
  intros l Hl. simpl. unfold empty_if_import.
  destruct (keyword_line kw_import l); [reflexivity | exact Hl].
Qed.

(** C3 (amended): in a text made of one-line import statements and of lines
    that begin with no keyword, where no import statement is followed by a
    blank line (an empty line or one of whitespace only), every import
    statement is emptied: its text goes, its line break stays, and every
    other line is kept as it is. *)
Theorem import_statements_removed (ls : list text) :
  Forall one_line ls ->
  Forall (fun l => plain_line l \/ import_statement l) ls ->
  imports_followed ls ->
  remove_imports_exports (unlines ls) = unlines (map empty_if_import ls).
Proof.
  intros H1 H2 Hf. unfold remove_imports_exports, sub at 3.
  rewrite sub_import_statements by auto.
  pose proof (empty_if_import_one_line ls H1) as L.
  pose proof (empty_if_import_plain ls H2) as P.
  destruct import_braces_re_keyword as [p2 E2].
  rewrite (sub_fixed import_braces_re anchored_import_braces_re); auto.
  2:{ rewrite E2. apply plain_lines_no_import. exact P. }
  rewrite (sub_fixed export_re anchored_export_re); auto.
  rewrite export_re_keyword. apply plain_lines_no_export. exact P.
Qed.

Lemma import_statements_removed_witness :
  let ls := [codes "// entry point"; codes "import X from 'path';";
             codes "import { a, b } from 'path';"; codes "  run(X, a, b);"] in
  Forall one_line ls /\
  Forall (fun l => plain_line l \/ import_statement l) ls /\
  imports_followed ls /\
  remove_imports_exports (unlines ls) =
    unlines [codes "// entry point"; []; []; codes "  run(X, a, b);"].
Proof.
  assert (H1 : Forall one_line
      [codes "// entry point"; codes "import X from 'path';";
       codes "import { a, b } from 'path';"; codes "  run(X, a, b);"])
    by (repeat constructor).
  assert (H2 : Forall (fun l => plain_line l \/ import_statement l)
      [codes "// entry point"; codes "import X from 'path';";
       codes "import { a, b } from 'path';"; codes "  run(X, a, b);"]).
  { constructor; [left; split; reflexivity|].
    constructor.
    { right.
      exact (Import_statement (codes " ") (codes "X ") (codes " ") SQUOTE
               (codes "path") SQUOTE [59%N] []
               ltac:(discriminate) eq_refl eq_refl ltac:(discriminate) eq_refl eq_refl
               eq_refl eq_refl (or_intror eq_refl) eq_refl). }
    constructor.
    { right.
      exact (Import_statement (codes " ") (codes "{ a, b } ") (codes " ") SQUOTE
               (codes "path") SQUOTE [59%N] []
               ltac:(discriminate) eq_refl eq_refl ltac:(discriminate) eq_refl eq_refl
               eq_refl eq_refl (or_intror eq_refl) eq_refl). }
    constructor; [left; split; reflexivity | constructor]. }
  assert (Hf : imports_followed
      [codes "// entry point"; codes "import X from 'path';";
       codes "import { a, b } from 'path';"; codes "  run(X, a, b);"]).
  { cbn [imports_followed]. repeat split; intros Hk l H;
      try (vm_compute in Hk; discriminate Hk); injection H as <-; reflexivity. }
  exact (conj H1 (conj H2 (conj Hf (import_statements_removed _ H1 H2 Hf)))).
Defined.

(** C3 as stated fails: a line of two spaces after the statement is taken
    along by the trailing [\s*] of the pattern.  The result is neither the
    text without the statement line nor the text with that line emptied. *)
Lemma blank_line_swallowed :
  let stmt := codes "import X from 'path';" in
  let others := [codes "  "; codes "run(X);"] in
  remove_imports_exports (unlines (stmt :: others)) = unlines [[]; codes "run(X);"] /\
  remove_imports_exports (unlines (stmt :: others)) <> unlines others /\
  remove_imports_exports (unlines (stmt :: others)) <> unlines ([] :: others).
Proof.
  split; [vm_compute; reflexivity|]. split; vm_compute; discriminate.
Qed.

(** C5 (amended): in a text without import lines, where [export] is
    followed on its own line by something else than whitespace, every line
    that begins with [export] and whitespace loses both, and every other
    line stays as it is. *)
Theorem export_keyword_stripped (ls : list text) :
  Forall one_line ls ->
  Forall (fun l => keyword_line kw_import l = false /\ export_has_operand l = true) ls ->
  remove_imports_exports (unlines ls) = unlines (map strip_export ls).
Proof.
  intros H1 H2.
  assert (Hi : forall p, Forall (no_match_on (keyword_re kw_import p)) ls).
  { intros p. eapply Forall_impl; [exact H2|]. intros l [Hl _].
    apply keyword_no_match; [reflexivity | exact Hl]. }
  unfold remove_imports_exports.
  destruct import_re_keyword as [p1 E1]. destruct import_braces_re_keyword as [p2 E2].
  rewrite (sub_fixed import_re anchored_import_re) by (rewrite ?E1; auto).
  rewrite (sub_fixed import_braces_re anchored_import_braces_re) by (rewrite ?E2; auto).
  apply export_lines; [exact H1 | | reflexivity].
  eapply Forall_impl; [exact H2|]. intros l [_ Hl]. exact Hl.
Qed.

Lemma export_keyword_stripped_witness :
  let ls := [codes "export class Foo {}"; codes "export default Foo;";
             codes "exports.x = 1;"] in
  Forall one_line ls /\
  Forall (fun l => keyword_line kw_import l = false /\ export_has_operand l = true) ls /\
  remove_imports_exports (unlines ls) =
    unlines [codes "class Foo {}"; codes "default Foo;"; codes "exports.x = 1;"].
Proof.
  assert (H1 : Forall one_line
      [codes "export class Foo {}"; codes "export default Foo;"; codes "exports.x = 1;"])
    by (repeat constructor).
  assert (H2 : Forall (fun l => keyword_line kw_import l = false /\
                                export_has_operand l = true)
      [codes "export class Foo {}"; codes "export default Foo;"; codes "exports.x = 1;"])
    by (repeat constructor).
  exact (conj H1 (conj H2 (export_keyword_stripped _ H1 H2))).
Defined.

(** C5 as stated fails: when only whitespace follows [export] on its line,
    the whitespace run goes on through the line break and the indentation
    of the next line, and the two lines become one. *)
Lemma export_run_crosses_lines :
  let ls := [codes "export "; codes "  class A {}"] in
  remove_imports_exports (unlines ls) = codes "class A {}" /\
  remove_imports_exports (unlines ls) <> unlines (map strip_export ls).
Proof. split; [vm_compute; reflexivity | vm_compute; discriminate]. Qed.

(** C10 (amended): when every line that begins with [import] is a
    complete one-line import statement, the second import substitution finds
    nothing to do, and the function agrees with the variant without it. *)
Theorem second_pattern_redundant (ls : list text) :
  Forall one_line ls ->
  Forall (fun l => keyword_line kw_import l = true -> import_statement l) ls ->
  remove_imports_exports (unlines ls) = remove_imports_exports_one_pattern (unlines ls).
Proof.
  intros H1 H2. destruct ls as [|l ls]; [reflexivity|].
  unfold remove_imports_exports, remove_imports_exports_one_pattern, sub at 3 5.
  assert (Hne : l :: ls <> []) by discriminate.
  destruct (sub_import_clears (length (l :: ls)) (l :: ls) None
              (Nat.le_refl _) Hne H1 H2 eq_refl) as (ls' & _ & L' & K' & ->).
  destruct import_braces_re_keyword as [p2 E2].
  rewrite (sub_fixed import_braces_re anchored_import_braces_re); auto.
  rewrite E2. eapply Forall_impl; [exact K'|]. intros l0 Hl.
  apply keyword_no_match; [reflexivity | exact Hl].
Qed.

Lemma second_pattern_redundant_witness :
  let ls := [codes "import { a, b } from 'path';"; codes "export const c = a + b;"] in
  Forall one_line ls /\
  Forall (fun l => keyword_line kw_import l = true -> import_statement l) ls /\
  remove_imports_exports (unlines ls) = remove_imports_exports_one_pattern (unlines ls).
Proof.
  assert (H1 : Forall one_line
      [codes "import { a, b } from 'path';"; codes "export const c = a + b;"])
    by (repeat constructor).
  assert (H2 : Forall (fun l => keyword_line kw_import l = true -> import_statement l)
      [codes "import { a, b } from 'path';"; codes "export const c = a + b;"]).
  { constructor.
    - intros _.
      exact (Import_statement (codes " ") (codes "{ a, b } ") (codes " ") SQUOTE
               (codes "path") SQUOTE [59%N] []
               ltac:(discriminate) eq_refl eq_refl ltac:(discriminate) eq_refl eq_refl
               eq_refl eq_refl (or_intror eq_refl) eq_refl).
    - constructor; [|constructor]. intros H. vm_compute in H. discriminate H. }
  exact (conj H1 (conj H2 (second_pattern_redundant _ H1 H2))).
Defined.

(** C10 as stated fails: both braces are on the first line, the line break
    comes before [from], and only the second pattern matches. *)
Lemma braces_on_one_line_differ :
  let ls := [codes "import {a}"; codes "from 'p';"] in
  Forall (fun l => open_brace false l = false) ls /\
  remove_imports_exports (unlines ls) = [] /\
  remove_imports_exports_one_pattern (unlines ls) = unlines ls /\
  remove_imports_exports (unlines ls) <> remove_imports_exports_one_pattern (unlines ls).
Proof.
  split; [repeat constructor|]. split; [vm_compute; reflexivity|].
  split; [vm_compute; reflexivity|]. vm_compute. discriminate.
Qed.


(** * The loop and the join of [bundle_modules] *)

Section BundleFacts.

Variable unicode_upper : N -> text.

Lemma join_cons sep x y rest :
  join sep (x :: y :: rest) = x ++ sep ++ join sep (y :: rest).
Proof. reflexivity. Qed.

Lemma join_app_cons sep x rest last :
  join sep (x :: rest ++ [last]) = x ++ sep ++ join sep (rest ++ [last]).
Proof. destruct rest; reflexivity. Qed.

(** The items of the modules, joined by line feeds, are their blocks. *)
Lemma join_module_items (modules : list (text * text)) :
  join [LF] (flat_map (fun m => module_items unicode_upper m.1 m.2) modules ++
             [BOOTSTRAP]) =
  concat (map (module_block unicode_upper) modules) ++ BOOTSTRAP.
Proof.
  induction modules as [|m modules IH]; [reflexivity|].
  cbn [flat_map map concat]. unfold module_items at 1.
  cbn [app]. rewrite !join_cons, join_app_cons, IH.
  unfold module_block. rewrite <- !app_assoc. reflexivity.
Qed.

Lemma join_output (modules : list (text * text)) :
  join [LF] (([HEADER] ++
              flat_map (fun m => module_items unicode_upper m.1 m.2) modules) ++
             [BOOTSTRAP]) =
  bundle_text unicode_upper modules.
Proof.
  rewrite <- app_assoc. cbn [app]. rewrite join_app_cons, join_module_items.
  reflexivity.
Qed.

(** Modules that are on disk are read and appended in order, and nothing
    is printed for them. *)
Lemma bundle_loop_on_disk files (modules : list (text * text)) output printed :
  on_disk files modules ->
  bundle_loop unicode_upper files modules.*1 output printed =
  Some (output ++ flat_map (fun m => module_items unicode_upper m.1 m.2) modules, printed).
Proof.
  intros H. revert output. induction H as [|m modules Hm H IH]; intros output.
  - simpl. rewrite app_nil_r. reflexivity.
  - cbn [fmap list_fmap bundle_loop]. unfold path_exists, read_file.
    rewrite Hm. cbn [negb mbind option_bind]. rewrite IH.
    cbn [flat_map]. rewrite app_assoc. reflexivity.
Qed.

Lemma bundle_loop_missing files missing modules output printed :
  files !! missing = None ->
  bundle_loop unicode_upper files (missing :: modules) output printed =
  bundle_loop unicode_upper files modules output (printed ++ [warning missing]).
Proof.
  intros H. cbn [bundle_loop]. unfold path_exists. rewrite H. reflexivity.
Qed.

Lemma bundle_loop_app files ms1 ms2 output printed output' printed' :
  bundle_loop unicode_upper files ms1 output printed = Some (output', printed') ->
  bundle_loop unicode_upper files (ms1 ++ ms2) output printed =
  bundle_loop unicode_upper files ms2 output' printed'.
Proof.
  revert output printed. induction ms1 as [|p ms1 IH]; intros output printed H.
  - simpl in H. injection H as -> ->. reflexivity.
  - cbn [app bundle_loop] in *.
    destruct (negb (path_exists files p)); [auto|].
    destruct (read_file files p) as [content|]; [|discriminate].
    cbn [mbind option_bind] in *. auto.
Qed.

(** A run over modules that are on disk, with a stretch of missing paths
    in their middle: a warning is printed for each missing path and the
    bundle is that of the modules on disk. *)
Lemma bundle_with_gap (before after : list (text * text)) (gap : list text) (w : world) :
  on_disk (disk w) before -> on_disk (disk w) after ->
  Forall (fun p => disk w !! p = None) gap ->
  bundle_modules_of unicode_upper (before.*1 ++ gap ++ after.*1) w =
  Some {| disk := <[OUTPUT_PATH := bundle_text unicode_upper (before ++ after)]> (disk w);
          stdout := (stdout w ++ map warning gap) ++
            summary (length (before.*1 ++ gap ++ after.*1))
                    (length (bundle_text unicode_upper (before ++ after))) |}.
Proof.
  intros Hb Ha Hg. unfold bundle_modules_of.
  assert (L : bundle_loop unicode_upper (disk w) (before.*1 ++ gap ++ after.*1) [HEADER] (stdout w) =
    Some ([HEADER] ++ flat_map (fun m => module_items unicode_upper m.1 m.2) (before ++ after),
          stdout w ++ map warning gap)).
  { rewrite (bundle_loop_app _ _ _ _ _ _ _ (bundle_loop_on_disk _ _ _ _ Hb)).
    assert (G : forall output printed,
      bundle_loop unicode_upper (disk w) (gap ++ after.*1) output printed =
      bundle_loop unicode_upper (disk w) after.*1 output (printed ++ map warning gap)).
    { induction Hg as [|p gap Hp Hg IH]; intros output printed.
      - simpl. rewrite app_nil_r. reflexivity.
      - cbn [app map]. rewrite bundle_loop_missing by exact Hp. rewrite IH.
        rewrite <- app_assoc. reflexivity. }
    rewrite G, (bundle_loop_on_disk _ _ _ _ Ha).
    rewrite flat_map_app, app_assoc. reflexivity. }
  rewrite L. cbn [mbind option_bind]. rewrite join_output. reflexivity.
Qed.

End BundleFacts.


(** * The claims about [bundle_modules] *)

Section BundleClaims.

Variable unicode_upper : N -> text.


(** C9: for the empty module list the bundle is the header, the joining
    line feed and the bootstrap segment, and it holds no module name
    comment. *)
Theorem empty_module_list (w : world) :
  bundle_modules_of unicode_upper [] w =
  Some {| disk := <[OUTPUT_PATH := HEADER ++ [LF] ++ BOOTSTRAP]> (disk w);
          stdout := stdout w ++ summary 0 (length (HEADER ++ [LF] ++ BOOTSTRAP)) |} /\
  count_occurrences (codes " MODULE") (HEADER ++ [LF] ++ BOOTSTRAP) = 0.
Proof.
  split; [reflexivity | vm_compute; reflexivity].
Qed.

(** C4: with [src/utils/DOMHelpers.js] missing and the eight other modules
    on disk, eight modules are bundled and the summary says nine. *)
Theorem summary_counts_listed_modules :
  let files : gmap text text :=
    list_to_map (map (fun p => (p, codes "/* code */")) (tail MODULES)) in
  let run := bundle_modules unicode_upper (World files []) in
  stdout <$> run =
    Some [ codes "Warning: src/utils/DOMHelpers.js not found, skipping...";
           codes "Successfully bundled 9 modules into content-refactored.js";
           codes "Total size: 2462 characters" ] /\
  (fun w' => count_occurrences (codes " MODULE") (default [] (disk w' !! OUTPUT_PATH)))
    <$> run = Some 8.
Proof. split; vm_compute; reflexivity. Qed.

(** C8: for [src/utils/config.json.js] the name in the divider comment is
    [CONFIGON], where the base name without its extension, in upper case,
    is [CONFIG.JSON]. *)
Theorem module_name_drops_inner_js :
  let path := codes "src/utils/config.json.js" in
  basename path = codes "config.json.js" /\
  upper unicode_upper (module_name path) = codes "CONFIGON" /\
  nth 1 (module_items unicode_upper path []) [] = codes "// CONFIGON MODULE" /\
  upper unicode_upper (strip_extension (basename path)) = codes "CONFIG.JSON".
Proof. repeat split; vm_compute; reflexivity. Qed.

End BundleClaims.



(** * Further properties of [remove_imports_exports] and of the bundler *)

(** * What [re.sub] with an empty replacement keeps *)

Lemma sub_from_sublist p prev s skip : sublist (sub_from p [] prev s skip) s.
Proof.
  revert prev skip. induction s as [|c s IH]; intros prev skip.
  - destruct skip; simpl; [|constructor].
    destruct (match_at p false prev []) as [r|]; [|constructor].
    destruct (length r =? 0); [|constructor].
    destruct (match_at p true prev []); constructor.
  - destruct skip as [|n]; simpl.
    + destruct (match_at p false prev (c :: s)) as [r|].
      * destruct (length r =? S (length s)).
        -- destruct (match_at p true prev (c :: s)) as [r'|]; simpl.
           ++ apply sublist_cons, IH.
           ++ apply sublist_skip, IH.
        -- simpl. apply sublist_cons, IH.
      * apply sublist_skip, IH.
    + apply sublist_cons, IH.
Qed.

Lemma sub_sublist p s : sublist (sub p [] s) s.
Proof. apply sub_from_sublist. Qed.

(** X1: the function only deletes.  Its result is the input with some code
    points left out: nothing is inserted, replaced or reordered. *)
Theorem remove_only_deletes (t : text) :
  sublist (remove_imports_exports t) t /\
  length (remove_imports_exports t) <= length t.
Proof.
  assert (H : sublist (remove_imports_exports t) t).
  { unfold remove_imports_exports.
    etransitivity; [apply sub_sublist|].
    etransitivity; [apply sub_sublist|]. apply sub_sublist. }
  split; [exact H | apply sublist_length, H].
Qed.

(** * The end of an import match *)

Lemma run_app_sound p1 p2 k prev s r :
  run (p1 ++ p2) k prev s = Some r ->
  exists s' prev', derives p1 prev s s' /\ run p2 k prev' s' = Some r.
Proof.
  revert prev s. induction p1 as [|o p1 IH]; intros prev s H.
  - simpl in *. eauto.
  - destruct o as [| |cls|lo hi cls|lo hi cls]; simpl in H.
    + destruct (at_bol prev) eqn:E; [|discriminate].
      apply IH in H as (s' & prev' & Hd & Hk). exists s', prev'. simpl. auto.
    + destruct (at_eol s) eqn:E; [|discriminate].
      apply IH in H as (s' & prev' & Hd & Hk). exists s', prev'. simpl. auto.
    + destruct s as [|c s]; [discriminate|].
      destruct (cls c) eqn:E; [|discriminate].
      apply IH in H as (s' & prev' & Hd & Hk). exists s', prev'. simpl. eauto 10.
    + apply max_repeat_sound in H as (w & s1 & -> & Hw & Hlo & Hhi & H).
      apply IH in H as (s' & prev' & Hd & Hk). exists s', prev'. simpl. eauto 10.
    + apply min_repeat_sound in H as (w & s1 & -> & Hw & Hlo & Hhi & H).
      apply IH in H as (s' & prev' & Hd & Hk). exists s', prev'. simpl. eauto 10.
Qed.

Lemma spaces_to_eol prev s :
  max_repeat is_space (run [At_end_line] (fun _ r => Some r)) 0 None prev s = last_eol s.
Proof.
  revert prev. induction s as [|c s IH]; intros prev; [reflexivity|].
  cbn [max_repeat last_eol may_repeat one_less pred run at_eol].
  rewrite andb_true_r, IH. reflexivity.
Qed.

Lemma last_eol_blank u R :
  one_line u -> forallb is_space u = true -> last_eol (u ++ R) = last_eol R.
Proof.
  induction u as [|c u IH]; intros Hl Hs; [reflexivity|].
  unfold one_line in Hl. simpl in Hl, Hs.
  apply andb_prop in Hl as [Hc Hl]. apply andb_prop in Hs as [Hsc Hs].
  cbn [app last_eol]. rewrite Hsc, (IH Hl Hs).
  unfold not_newline in Hc. destruct (c =? LF)%N; [discriminate|].
  destruct (last_eol R); reflexivity.
Qed.

Lemma last_eol_solid w c s :
  one_line w -> forallb is_space w = true -> is_space c = false ->
  last_eol (w ++ c :: s) = None.
Proof.
  intros Hl Hs Hc. rewrite (last_eol_blank _ _ Hl Hs). cbn [last_eol]. rewrite Hc.
  destruct (N.eqb_spec c LF) as [->|_]; [discriminate Hc | reflexivity].
Qed.

Lemma last_eol_line u R r :
  one_line u -> last_eol (u ++ R) = Some r -> last_eol R = Some r.
Proof.
  intros Hl H. destruct (blank_line u) eqn:B.
  - rewrite last_eol_blank in H; auto.
  - apply blank_line_split in B as (w & c & l' & -> & Hw & Hc).
    apply one_line_app in Hl as [Hl _].
    rewrite <- app_assoc in H. cbn [app] in H.
    rewrite last_eol_solid in H by auto. discriminate.
Qed.

Lemma last_eol_after ls :
  Forall one_line ls -> last_eol (after_line ls) = Some (after_line (skip_blank_lines ls)).
Proof.
  induction 1 as [|l ls Hl H IH]; [reflexivity|].
  unfold after_line at 1. rewrite unlines_after.
  cbn [last_eol skip_blank_lines]. change (is_space LF) with true. cbv iota.
  rewrite N.eqb_refl.
  destruct (blank_line l) eqn:B.
  - rewrite last_eol_blank, IH by auto. reflexivity.
  - assert (E : last_eol (l ++ after_line ls) = None).
    { apply blank_line_split in B as (w & c & l' & -> & Hw & Hc).
      apply one_line_app in Hl as [Hl _].
      rewrite <- app_assoc. cbn [app]. apply last_eol_solid; auto. }
    rewrite E. unfold after_line at 2. rewrite unlines_after. reflexivity.
Qed.

Lemma import_re_head : import_re = import_head ++ [spaces0; At_end_line].
Proof. reflexivity. Qed.

(** The part of both import patterns from [from] to the optional semicolon,
    along what is left of a line: the whitespace after [from] runs past the
    end of the line, or the part ends on the line, after a quote and at most
    one semicolon. *)
Lemma from_clause_on_line u prev R s' :
  one_line u -> at_eol R = true ->
  derives (literal_codes kw_from ++
           [spaces1; In_set is_quote; lazy_any; In_set is_quote; opt_semicolon])
    prev (u ++ R) s' ->
  (exists u3, u = kw_from ++ u3 /\ forallb is_space u3 = true) \/
  (exists a q sm u8, u = a ++ q :: sm ++ u8 /\ is_quote q = true /\
     (sm = [] \/ sm = [59%N]) /\ one_line u8 /\ s' = u8 ++ R).
Proof.
  intros Hu HeR M.
  apply derives_literal in M as (s4 & E & M).
  symmetry in E. apply line_step_one in E as (u3 & -> & -> & Hu3); auto.
  cbn [derives spaces1] in M.
  destruct M as (w2 & s5 & E & Hw2 & _ & _ & M).
  symmetry in E. apply line_cross_one in E as [(u4 & -> & -> & Hu4)|(w' & _ & Hs & _)]; auto.
  2:{ left. eauto. }
  right.
  cbn [derives] in M. destruct M as (q1 & s6 & E & Hq1 & M).
  apply is_quote_solid in Hq1 as [Hq1 _].
  symmetry in E. apply (line_step_one R u4 [q1]) in E as (u5 & -> & -> & Hu5); auto.
  2:{ simpl. rewrite Hq1. reflexivity. }
  cbn [derives lazy_any] in M. destruct M as (pth & s7 & E & Hp & _ & _ & M).
  symmetry in E. apply line_step_one in E as (u6 & -> & -> & Hu6); auto.
  cbn [derives] in M. destruct M as (q2 & s8 & E & Hq2 & M).
  pose proof Hq2 as Hq2'. apply is_quote_solid in Hq2' as [Hq2' _].
  symmetry in E. apply (line_step_one R u6 [q2]) in E as (u7 & -> & -> & Hu7); auto.
  2:{ simpl. rewrite Hq2'. reflexivity. }
  cbn [derives opt_semicolon] in M. destruct M as (sm & s9 & E & Hsm & _ & Hhi & M).
  pose proof (semicolons_line _ Hsm) as Hsm'.
  symmetry in E. apply line_step_one in E as (u8 & -> & -> & Hu8); auto.
  cbn [derives] in M. subst s'.
  exists (kw_from ++ w2 ++ [q1] ++ pth), q2, sm, u8.
  split; [rewrite <- !app_assoc; reflexivity|].
  split; [exact Hq2|]. split; [|auto].
  destruct sm as [|c [|d sm]]; [auto | right | simpl in Hhi; lia].
  simpl in Hsm. unfold is_char in Hsm. rewrite andb_true_r in Hsm.
  apply N.eqb_eq in Hsm. subst c. reflexivity.
Qed.

(** The head of the import pattern along a line: the whitespace after
    [import] or after [from] runs past the end of the line, or the head ends
    on the line. *)
Lemma import_head_on_line l prev R s' :
  one_line l -> at_eol R = true -> derives import_head prev (l ++ R) s' ->
  (exists u, l = kw_import ++ u /\ forallb is_space u = true) \/
  (exists a u, l = a ++ kw_from ++ u /\ forallb is_space u = true) \/
  (exists a q sm u, l = a ++ q :: sm ++ u /\ is_quote q = true /\
     (sm = [] \/ sm = [59%N]) /\ one_line u /\ s' = u ++ R).
Proof.
  intros Hl HeR M. unfold import_head in M.
  apply derives_import_prefix in M as (w1 & s2 & E & Hw1 & _ & M).
  symmetry in E. apply line_step_one in E as (u0 & -> & E & Hu0); auto.
  apply line_cross_one in E as [(u1 & -> & -> & Hu1)|(w' & _ & Hs & _)]; auto.
  2:{ left. eauto. }
  right.
  cbn [derives lazy_any] in M. destruct M as (x & s3 & E & Hx & _ & _ & M).
  symmetry in E. apply line_step_one in E as (u2 & -> & -> & Hu2); auto.
  apply from_clause_on_line in M
    as [(u3 & -> & Hs)|(a & q & sm & u8 & -> & Hq & Hsm & Hu8 & ->)]; auto.
  - left. exists (kw_import ++ w1 ++ x), u3. split; [|exact Hs].
    rewrite <- !app_assoc. reflexivity.
  - right. exists (kw_import ++ w1 ++ x ++ a), q, sm, u8.
    split; [|auto]. rewrite <- !app_assoc. reflexivity.
Qed.

Lemma import_statement_head stmt prev R s' :
  import_statement stmt -> at_eol R = true ->
  derives import_head prev (stmt ++ R) s' ->
  exists u, one_line u /\ s' = u ++ R.
Proof.
  intros Hs HeR M.
  destruct (import_statement_last _ Hs) as (c0 & Hlast & Ht & Hm).
  apply import_head_on_line in M
    as [(u & -> & Hu)|[(a & u & -> & Hu)|(a & q & sm & u & _ & _ & _ & Hu & ->)]];
    auto using import_statement_line.
  - exfalso. change kw_import with (codes "impor" ++ [116%N]) in Hlast.
    rewrite <- app_assoc in Hlast. cbn [app] in Hlast.
    rewrite last_solid_app in Hlast by auto. congruence.
  - exfalso. change kw_from with (codes "fro" ++ [109%N]) in Hlast.
    rewrite <- app_assoc, app_assoc in Hlast. cbn [app] in Hlast.
    rewrite last_solid_app in Hlast by auto. congruence.
  - eauto.
Qed.

(** A match that begins with a one-line import statement takes the blank
    lines after it along and ends before the line feed of the next line
    that is not blank, or at the end of the text. *)
Lemma import_match_lines stmt prev ls :
  import_statement stmt -> at_bol prev = true -> Forall one_line ls ->
  match_at import_re false prev (stmt ++ after_line ls) =
  Some (after_line (skip_blank_lines ls)).
Proof.
  intros Hs Hb Hl.
  destruct (match_at_complete import_re prev (stmt ++ after_line ls) (after_line ls))
    as [r Hr].
  { apply import_statement_derives; auto using at_eol_after. }
  rewrite Hr. rewrite <- (last_eol_after ls Hl).
  unfold match_at in Hr. rewrite import_re_head in Hr.
  apply run_app_sound in Hr as (s' & prev' & Hd & Hk).
  apply import_statement_head in Hd as (u & Hu & ->); auto using at_eol_after.
  change (max_repeat is_space (run [At_end_line] (fun _ r => Some r)) 0 None prev'
            (u ++ after_line ls) = Some r) in Hk.
  rewrite spaces_to_eol in Hk. symmetry. eapply last_eol_line; eauto.
Qed.

(** * The first substitution on the lines of a module *)

Lemma skip_blank_lines_suffix ls : exists pre, ls = pre ++ skip_blank_lines ls.
Proof.
  induction ls as [|l ls [pre IH]]; [exists []; reflexivity|].
  simpl. destruct (blank_line l).
  - exists (l :: pre). simpl. rewrite <- IH. reflexivity.
  - exists []. reflexivity.
Qed.

Lemma clear_imports_skip ls :
  clear_imports true ls = clear_imports false (skip_blank_lines ls).
Proof.
  induction ls as [|l ls IH]; [reflexivity|].
  cbn [clear_imports skip_blank_lines andb]. destruct (blank_line l); [exact IH | reflexivity].
Qed.

Lemma after_clear_imports ls :
  after_line (clear_imports false ls) =
  match ls with [] => [] | _ :: _ => LF :: unlines (clear_imports false ls) end.
Proof.
  destruct ls as [|l ls]; [reflexivity|].
  cbn [clear_imports andb]. destruct (keyword_line kw_import l); reflexivity.
Qed.

Lemma sub_import_lines n :
  forall ls prev, length ls <= n ->
  Forall one_line ls ->
  Forall (fun l => keyword_line kw_import l = true -> import_statement l) ls ->
  at_bol prev = true ->
  sub_from import_re [] prev (unlines ls) 0 = unlines (clear_imports false ls).
Proof.
  induction n as [|n IH]; intros ls prev Hn H1 H2 Hb.
  { destruct ls; [|simpl in Hn; lia]. apply sub_nil. exact anchored_import_re. }
  destruct ls as [|l ls]; [apply sub_nil; exact anchored_import_re|].
  inversion H1 as [|? ? Hl H1']; subst. inversion H2 as [|? ? Hi H2']; subst.
  assert (Hnext : forall ls', length ls' <= n -> Forall one_line ls' ->
            Forall (fun l => keyword_line kw_import l = true -> import_statement l) ls' ->
            sub_next import_re [] (after_line ls') = after_line (clear_imports false ls')).
  { intros ls' Hlen L I. rewrite after_clear_imports.
    destruct ls' as [|l' ls']; [reflexivity|].
    simpl sub_next. f_equal. apply IH; auto. }
  simpl in Hn. rewrite unlines_after. cbn [clear_imports andb].
  destruct (keyword_line kw_import l) eqn:K.
  - specialize (Hi eq_refl).
    pose proof (import_match_lines l prev ls Hi Hb H1') as M.
    destruct (sub_match import_re anchored_import_re [] _ _ _ M) as (c & m & E & ->).
    rewrite app_nil_l, sub_at_eol by auto using anchored_import_re, at_eol_after.
    rewrite unlines_after, app_nil_l, clear_imports_skip.
    destruct (skip_blank_lines_suffix ls) as [pre Hpre].
    apply Hnext.
    + apply (f_equal length) in Hpre. rewrite length_app in Hpre. lia.
    + rewrite Hpre in H1'. apply Forall_app in H1' as [_ H]. exact H.
    + rewrite Hpre in H2'. apply Forall_app in H2' as [_ H]. exact H.
  - destruct import_re_keyword as [q Eq].
    rewrite sub_line; auto using anchored_import_re, at_eol_after.
    2:{ rewrite anchored_bol by auto using anchored_import_re. rewrite Eq.
        apply keyword_no_match; auto using at_eol_after. }
    rewrite unlines_after. f_equal. apply Hnext; auto. lia.
Qed.

Lemma clear_imports_lines (P : text -> Prop) b ls :
  P [] -> Forall (fun l => keyword_line kw_import l = false -> P l) ls ->
  Forall P (clear_imports b ls).
Proof.
  intros H0 H. revert b. induction H as [|l ls Hl H IH]; intros b; [constructor|].
  cbn [clear_imports]. destruct (b && blank_line l); [apply IH|].
  destruct (keyword_line kw_import l); constructor; auto.
Qed.

(** The three substitutions on the lines of a module. *)
Lemma module_text_lines (ls : list text) :
  Forall one_line ls ->
  Forall (fun l => import_statement l \/
            (keyword_line kw_import l = false /\ export_has_operand l = true)) ls ->
  remove_imports_exports (unlines ls) =
  unlines (map strip_export (clear_imports false ls)).
Proof.
  intros H1 H2. unfold remove_imports_exports, sub at 3.
  rewrite (sub_import_lines (length ls)); auto.
  2:{ eapply Forall_impl; [exact H2|]. intros l [Hs|[Hk _]] K; [exact Hs | congruence]. }
  assert (L : Forall one_line (clear_imports false ls)).
  { apply clear_imports_lines; [reflexivity|].
    eapply Forall_impl; [exact H1|]. auto. }
  assert (K : Forall (fun l => keyword_line kw_import l = false /\
                               export_has_operand l = true) (clear_imports false ls)).
  { apply clear_imports_lines; [split; reflexivity|].
    eapply Forall_impl; [exact H2|]. intros l [Hs|H] Hk; [|exact H].
    rewrite (import_statement_keyword l Hs) in Hk. discriminate. }
  destruct import_braces_re_keyword as [p2 E2].
  rewrite (sub_fixed import_braces_re anchored_import_braces_re); auto.
  2:{ rewrite E2. eapply Forall_impl; [exact K|]. intros l [Hk _].
      apply keyword_no_match; [reflexivity | exact Hk]. }
  apply export_lines; [exact L | | reflexivity].
  eapply Forall_impl; [exact K|]. intros l [_ Hl]. exact Hl.
Qed.

(** X2: a module text whose import lines are complete one-line statements
    and whose [export] keywords are followed on their line by something
    else than whitespace.  Every import statement goes together with the
    blank lines right after it, leaving one empty line; every [export] at
    the start of a line goes with the whitespace after it; the rest is
    kept. *)
Theorem module_text_cleaned (ls : list text) :
  Forall one_line ls ->
  Forall (fun l => import_statement l \/
            (keyword_line kw_import l = false /\ export_has_operand l = true)) ls ->
  remove_imports_exports (unlines ls) =
  unlines (map strip_export (clear_imports false ls)).
Proof. apply module_text_lines. Qed.

Lemma module_text_cleaned_witness :
  let ls := [codes "import { a } from './a.js';"; []; codes "  ";
             codes "export class B {"; codes "  run() { return a; }"; codes "}";
             codes "import C from 'c'"; codes "export default B;"] in
  Forall one_line ls /\
  Forall (fun l => import_statement l \/
            (keyword_line kw_import l = false /\ export_has_operand l = true)) ls /\
  remove_imports_exports (unlines ls) =
    unlines [[]; codes "class B {"; codes "  run() { return a; }"; codes "}";
             []; codes "default B;"].
Proof.
  assert (H1 : Forall one_line
      [codes "import { a } from './a.js';"; []; codes "  ";
       codes "export class B {"; codes "  run() { return a; }"; codes "}";
       codes "import C from 'c'"; codes "export default B;"])
    by (repeat constructor).
  assert (H2 : Forall (fun l => import_statement l \/
            (keyword_line kw_import l = false /\ export_has_operand l = true))
      [codes "import { a } from './a.js';"; []; codes "  ";
       codes "export class B {"; codes "  run() { return a; }"; codes "}";
       codes "import C from 'c'"; codes "export default B;"]).
  { constructor.
    { left.
      exact (Import_statement (codes " ") (codes "{ a } ") (codes " ") SQUOTE
               (codes "./a.js") SQUOTE [59%N] []
               ltac:(discriminate) eq_refl eq_refl ltac:(discriminate) eq_refl eq_refl
               eq_refl eq_refl (or_intror eq_refl) eq_refl). }
    do 5 (constructor; [right; split; reflexivity|]).
    constructor.
    { left.
      exact (Import_statement (codes " ") (codes "C ") (codes " ") SQUOTE
               (codes "c") SQUOTE [] []
               ltac:(discriminate) eq_refl eq_refl ltac:(discriminate) eq_refl eq_refl
               eq_refl eq_refl (or_introl eq_refl) eq_refl). }
    constructor; [right; split; reflexivity | constructor]. }
  exact (conj H1 (conj H2 (module_text_cleaned _ H1 H2))).
Defined.


(** * Import lines that go on after the statement *)

Lemma forallb_rev (f : N -> bool) a : forallb f (rev a) = forallb f a.
Proof.
  induction a as [|x a IH]; [reflexivity|].
  simpl. rewrite forallb_app, IH. simpl. rewrite andb_true_r. apply andb_comm.
Qed.

Lemma import_braces_re_head :
  import_braces_re = import_braces_head ++ [spaces0; At_end_line].
Proof. reflexivity. Qed.

Lemma open_brace_app b a r : open_brace b (a ++ r) = open_brace (open_brace b a) r.
Proof.
  revert b. induction a as [|c a IH]; intros b; [reflexivity|].
  simpl. destruct (c =? 123)%N; [apply IH|]. destruct (c =? 125)%N; apply IH.
Qed.

Lemma open_brace_stays u :
  forallb (not_char 125%N) u = true -> open_brace true u = true.
Proof.
  induction u as [|c u IH]; [reflexivity|]. simpl. unfold not_char at 1.
  intros H. apply andb_prop in H as [Hc H].
  destruct (c =? 123)%N; [auto|]. destruct (c =? 125)%N; [discriminate | auto].
Qed.

(** The head of the second import pattern along a line. *)
Lemma import_braces_head_on_line l prev R s' :
  one_line l -> at_eol R = true -> derives import_braces_head prev (l ++ R) s' ->
  (exists u, l = kw_import ++ u /\ forallb is_space u = true) \/
  (exists a u, l = a ++ 123%N :: u /\ forallb (not_char 125%N) u = true) \/
  (exists a u, l = a ++ 125%N :: u /\ forallb is_space u = true) \/
  (exists a u, l = a ++ kw_from ++ u /\ forallb is_space u = true) \/
  (exists a q sm u, l = a ++ q :: sm ++ u /\ is_quote q = true /\
     (sm = [] \/ sm = [59%N]) /\ one_line u /\ s' = u ++ R).
Proof.
  intros Hl HeR M. unfold import_braces_head in M.
  apply derives_import_prefix in M as (w1 & s2 & E & Hw1 & _ & M).
  symmetry in E. apply line_step_one in E as (u0 & -> & E & Hu0); auto.
  apply line_cross_one in E as [(u1 & -> & -> & Hu1)|(w' & _ & Hs & _)]; auto.
  2:{ left. eauto. }
  right.
  cbn [derives] in M. destruct M as (c & s3 & E & Hc & M).
  apply N.eqb_eq in Hc. subst c.
  symmetry in E. apply (line_step_one R u1 [123%N]) in E as (u2 & -> & -> & Hu2); auto.
  destruct M as (x & s4 & E & Hx & _ & _ & M).
  apply line_cross in E as [(u3 & -> & ->)|(w' & _ & -> & _)].
  2:{ left. exists (kw_import ++ w1), u2. rewrite forallb_app in Hx.
      apply andb_prop in Hx as [Hx _]. split; [|exact Hx].
      rewrite <- !app_assoc. reflexivity. }
  right. apply one_line_app in Hu2 as [_ Hu3].
  destruct M as (c & s5 & E & Hc & M).
  apply N.eqb_eq in Hc. subst c.
  symmetry in E. apply (line_step_one R u3 [125%N]) in E as (u4 & -> & -> & Hu4); auto.
  cbn [derives spaces1] in M. destruct M as (w2 & s6 & E & Hw2 & _ & _ & M).
  symmetry in E. apply line_cross_one in E as [(u5 & -> & -> & Hu5)|(w' & _ & Hs & _)]; auto.
  2:{ left. exists (kw_import ++ w1 ++ 123%N :: x), u4. split; [|exact Hs].
      rewrite <- !app_assoc. reflexivity. }
  right.
  apply from_clause_on_line in M
    as [(u6 & -> & Hs)|(a & q & sm & u8 & -> & Hq & Hsm & Hu8 & ->)]; auto.
  - left. exists (kw_import ++ w1 ++ 123%N :: x ++ 125%N :: w2), u6. split; [|exact Hs].
    repeat (rewrite <- !app_assoc; cbn [app]). reflexivity.
  - right. exists (kw_import ++ w1 ++ 123%N :: x ++ 125%N :: w2 ++ a), q, sm, u8.
    split; [|auto]. repeat (rewrite <- !app_assoc; cbn [app]). reflexivity.
Qed.

(** [\s*$] from a place on a line: only whitespace is left on the line. *)
Lemma line_end_blank u R k prev r :
  one_line u -> run [spaces0; At_end_line] k prev (u ++ R) = Some r ->
  forallb is_space u = true.
Proof.
  intros Hu H. apply run_sound in H as (s' & prev' & M & _).
  cbn [derives spaces0] in M. destruct M as (w & s1 & E & Hw & _ & _ & He & _).
  symmetry in E. apply line_cross_one in E as [(u' & -> & -> & Hu')|(w' & _ & Hs & _)]; auto.
  apply at_eol_line in He; [|exact Hu']. subst u'. rewrite app_nil_r. exact Hw.
Qed.

Lemma line_end_solid a c u :
  is_space c = false -> forallb is_space u = true ->
  line_end (a ++ c :: u) = c :: rev a.
Proof.
  intros Hc Hu. unfold line_end. rewrite rev_app_distr. cbn [rev].
  rewrite <- app_assoc, drop_while_all by (rewrite forallb_rev; exact Hu).
  cbn [app drop_while]. rewrite Hc. reflexivity.
Qed.

(** The shapes of a line on which an import match can end, or get past the
    end of the line, are not those of a line with a tail. *)
Lemma tail_not_keyword u :
  forallb is_space u = true -> import_with_tail (kw_import ++ u) = false.
Proof.
  intros Hu. unfold import_with_tail.
  change (drop 6 (kw_import ++ u)) with u. unfold blank_line. rewrite Hu.
  rewrite !andb_false_r. reflexivity.
Qed.

Lemma tail_not_from a u :
  forallb is_space u = true -> import_with_tail (a ++ kw_from ++ u) = false.
Proof.
  intros Hu. unfold import_with_tail.
  change kw_from with (codes "fro" ++ [109%N]).
  rewrite <- (app_assoc (codes "fro")), app_assoc. cbn [app].
  rewrite line_end_solid by auto. rewrite rev_app_distr.
  rewrite !andb_false_r. reflexivity.
Qed.

Lemma tail_not_open a u :
  forallb (not_char 125%N) u = true -> import_with_tail (a ++ 123%N :: u) = false.
Proof.
  intros Hu. unfold import_with_tail.
  rewrite open_brace_app. cbn [open_brace]. change (123 =? 123)%N with true. cbv iota.
  rewrite (open_brace_stays u Hu). rewrite !andb_false_r. reflexivity.
Qed.

Lemma tail_not_closed a u :
  forallb is_space u = true -> import_with_tail (a ++ 125%N :: u) = false.
Proof.
  intros Hu. unfold import_with_tail. rewrite line_end_solid by auto.
  unfold statement_end. change (125 =? 125)%N with true.
  rewrite !orb_true_r, !andb_false_r. reflexivity.
Qed.

Lemma tail_not_statement a q sm u :
  is_quote q = true -> sm = [] \/ sm = [59%N] -> forallb is_space u = true ->
  import_with_tail (a ++ q :: sm ++ u) = false.
Proof.
  intros Hq Hsm Hu. pose proof (is_quote_solid q Hq) as [_ Hs].
  unfold import_with_tail. destruct Hsm as [-> | ->].
  - cbn [app]. rewrite line_end_solid by auto. unfold statement_end. rewrite Hq.
    rewrite !orb_true_r, !andb_false_r. reflexivity.
  - change (a ++ q :: [59%N] ++ u) with (a ++ [q] ++ 59%N :: u). rewrite app_assoc.
    rewrite line_end_solid by auto. rewrite rev_app_distr. cbn [rev app].
    unfold statement_end. rewrite Hq. change (59 =? 59)%N with true.
    rewrite !orb_true_r, !andb_false_r. reflexivity.
Qed.

Lemma import_with_tail_no_import l :
  one_line l -> import_with_tail l = true -> no_match_on import_re l.
Proof.
  intros Hl Ht r Hr.
  destruct (match_at import_re false None (l ++ r)) as [r'|] eqn:M; [exfalso | reflexivity].
  unfold match_at in M. rewrite import_re_head in M.
  apply run_app_sound in M as (s' & prev' & Hd & Hk).
  apply import_head_on_line in Hd
    as [(u & -> & Hu)|[(a & u & -> & Hu)|(a & q & sm & u & -> & Hq & Hsm & Hu & ->)]]; auto.
  - rewrite tail_not_keyword in Ht by exact Hu. discriminate.
  - rewrite tail_not_from in Ht by exact Hu. discriminate.
  - apply line_end_blank in Hk; [|exact Hu].
    rewrite tail_not_statement in Ht by auto. discriminate.
Qed.

Lemma import_with_tail_no_braces l :
  one_line l -> import_with_tail l = true -> no_match_on import_braces_re l.
Proof.
  intros Hl Ht r Hr.
  destruct (match_at import_braces_re false None (l ++ r)) as [r'|] eqn:M;
    [exfalso | reflexivity].
  unfold match_at in M. rewrite import_braces_re_head in M.
  apply run_app_sound in M as (s' & prev' & Hd & Hk).
  apply import_braces_head_on_line in Hd
    as [(u & -> & Hu)|[(a & u & -> & Hu)|[(a & u & -> & Hu)|[(a & u & -> & Hu)|
        (a & q & sm & u & -> & Hq & Hsm & Hu & ->)]]]]; auto.
  - rewrite tail_not_keyword in Ht by exact Hu. discriminate.
  - rewrite tail_not_open in Ht by exact Hu. discriminate.
  - rewrite tail_not_closed in Ht by auto. discriminate.
  - rewrite tail_not_from in Ht by exact Hu. discriminate.
  - apply line_end_blank in Hk; [|exact Hu].
    rewrite tail_not_statement in Ht by auto. discriminate.
Qed.

Lemma import_with_tail_no_export l :
  import_with_tail l = true -> no_match_on export_re l.
Proof.
  intros Ht. rewrite export_re_keyword. apply keyword_no_match; [reflexivity|].
  unfold import_with_tail in Ht. rewrite !andb_true_iff in Ht.
  destruct Ht as [[[H _] _] _].
  apply starts_with_spec in H as [l' ->]. reflexivity.
Qed.

(** X3: an import statement is removed only when it reaches the end of its
    line.  A line that begins with [import] and goes on after the statement
    with a comment or more code stays as it is, and so does a text made of
    such lines and of lines that begin with no keyword. *)
Theorem import_with_tail_kept (ls : list text) :
  Forall one_line ls ->
  Forall (fun l => plain_line l \/ import_with_tail l = true) ls ->
  remove_imports_exports (unlines ls) = unlines ls.
Proof.
  intros H1 H2.
  assert (H : Forall (fun l => no_match_on import_re l /\
                      no_match_on import_braces_re l /\ no_match_on export_re l) ls).
  { apply Forall_forall. intros l Hin.
    pose proof (proj1 (Forall_forall _ _) H1 l Hin) as Hl.
    destruct (proj1 (Forall_forall _ _) H2 l Hin) as [Hp|Ht].
    - apply untouched_line_no_match; auto.
    - auto using import_with_tail_no_import, import_with_tail_no_braces,
        import_with_tail_no_export. }
  unfold remove_imports_exports.
  rewrite (sub_fixed import_re anchored_import_re); auto.
  2:{ eapply Forall_impl; [exact H|]. intros l (? & ? & ?). assumption. }
  rewrite (sub_fixed import_braces_re anchored_import_braces_re); auto.
  2:{ eapply Forall_impl; [exact H|]. intros l (? & ? & ?). assumption. }
  rewrite (sub_fixed export_re anchored_export_re); auto.
  eapply Forall_impl; [exact H|]. intros l (? & ? & ?). assumption.
Qed.

Lemma import_with_tail_kept_witness :
  let ls := [codes "import X from 'x'; // the main component";
             codes "import { a } from 'a'; run(a);";
             codes "run(X);"] in
  Forall one_line ls /\
  Forall (fun l => plain_line l \/ import_with_tail l = true) ls /\
  remove_imports_exports (unlines ls) = unlines ls.
Proof.
  assert (H1 : Forall one_line
      [codes "import X from 'x'; // the main component";
       codes "import { a } from 'a'; run(a);";
       codes "run(X);"]).
  { repeat constructor. }
  assert (H2 : Forall (fun l => plain_line l \/ import_with_tail l = true)
      [codes "import X from 'x'; // the main component";
       codes "import { a } from 'a'; run(a);";
       codes "run(X);"]).
  { constructor; [right; reflexivity|].
    constructor; [right; reflexivity|].
    constructor; [left; split; reflexivity|]. constructor. }
  exact (conj H1 (conj H2 (import_with_tail_kept _ H1 H2))).
Defined.


(** * [export] alone on its line *)

Lemma last_of_app prev a b : last_of prev (a ++ b) = last_of (last_of prev a) b.
Proof.
  revert prev. induction a as [|c a IH]; intros prev; [reflexivity|].
  cbn [app]. rewrite !last_of_cons. apply IH.
Qed.

Lemma last_of_snoc prev a c : last_of prev (a ++ [c]) = Some c.
Proof. rewrite last_of_app. reflexivity. Qed.

(** The blank lines at the head of a list make a run of whitespace that
    ends with a line feed. *)
Lemma skip_blank_lines_text ls l ls' :
  Forall one_line ls -> skip_blank_lines ls = l :: ls' ->
  exists W, LF :: unlines ls = W ++ [LF] ++ l ++ after_line ls' /\
    forallb is_space W = true /\ blank_line l = false.
Proof.
  induction 1 as [|l0 ls Hl0 H IH]; [discriminate|].
  cbn [skip_blank_lines]. destruct (blank_line l0) eqn:B.
  - intros E. destruct (IH E) as (W & EW & HW & Hl).
    exists (LF :: l0 ++ W). rewrite unlines_after.
    destruct ls as [|l1 ls]; [discriminate E|].
    unfold after_line at 1. rewrite EW. cbn [app]. rewrite <- !app_assoc.
    split; [reflexivity|]. split; [|exact Hl].
    cbn [forallb]. rewrite forallb_app, HW. unfold blank_line in B. rewrite B. reflexivity.
  - intros E. injection E as <- <-. exists []. rewrite unlines_after. auto.
Qed.

Lemma skip_blank_lines_none ls :
  Forall one_line ls -> skip_blank_lines ls = [] -> forallb is_space (after_line ls) = true.
Proof.
  induction 1 as [|l0 ls Hl0 H IH]; [reflexivity|].
  cbn [skip_blank_lines]. destruct (blank_line l0) eqn:B; [|discriminate].
  intros E. unfold after_line. rewrite unlines_after. cbn [forallb].
  rewrite forallb_app, (IH E). unfold blank_line in B. rewrite B. reflexivity.
Qed.

Lemma drop_while_nil f s : forallb f s = true -> drop_while f s = [].
Proof. intros H. rewrite <- (app_nil_r s). apply drop_while_all. exact H. Qed.

Lemma drop_while_solid f c s : f c = false -> drop_while f (c :: s) = c :: s.
Proof. intros H. simpl. rewrite H. reflexivity. Qed.

Section BareExport.

Variables (w : text) (following : list text).
Hypothesis Hw : forallb is_blank w = true.
Hypothesis Hone : Forall one_line following.
Hypothesis Hplain : Forall plain_line following.
Hypothesis Hfollowing : following <> [].

Lemma bare_export_match prev :
  at_bol prev = true ->
  match_at export_re false prev ((kw_export ++ w) ++ after_line following) =
  Some (drop_while is_space (after_line following)).
Proof.
  intros Hb. rewrite export_match, Hb.
  replace (starts_with kw_export ((kw_export ++ w) ++ after_line following)) with true
    by (symmetry; apply starts_with_spec; rewrite <- app_assoc; eauto).
  rewrite <- app_assoc.
  change (drop 6 (kw_export ++ w ++ after_line following)) with (w ++ after_line following).
  apply blank_space in Hw as [Hs _].
  rewrite (drop_while_all _ _ _ Hs).
  destruct following as [|l ls]; [congruence|].
  destruct w as [|c w']; [reflexivity|].
  simpl in Hs. apply andb_prop in Hs as [Hc _]. cbn [app andb]. rewrite Hc. reflexivity.
Qed.

(** The scan over the line and what it joins to it. *)
Lemma bare_export_sub prev :
  at_bol prev = true ->
  sub_from export_re [] prev (unlines ((kw_export ++ w) :: following)) 0 =
  unlines (join_next following).
Proof.
  intros Hb. rewrite unlines_after.
  destruct (sub_match export_re anchored_export_re [] _ _ _ (bare_export_match prev Hb))
    as (c & m & E & ->).
  rewrite app_nil_l. unfold join_next.
  destruct (skip_blank_lines following) as [|l ls] eqn:S.
  - rewrite drop_while_nil by (apply skip_blank_lines_none; auto).
    apply sub_nil. exact anchored_export_re.
  - destruct following as [|l0 ls0] eqn:F; [congruence|]. rewrite <- F in *.
    assert (EF : after_line following = LF :: unlines following) by (rewrite F; reflexivity).
    destruct (skip_blank_lines_text _ _ _ Hone S) as (W & EW & HW & Hl).
    rewrite EF, EW in E |- *.
    assert (L : Forall one_line (l :: ls) /\ Forall plain_line (l :: ls)).
    { destruct (skip_blank_lines_suffix following) as [pre Hpre]. rewrite S in Hpre.
      pose proof Hone as H1. pose proof Hplain as H2. rewrite Hpre in H1, H2.
      apply Forall_app in H1 as [_ H1]. apply Forall_app in H2 as [_ H2]. auto. }
    destruct L as [L1 L2].
    inversion L1 as [|? ? Hl1 L1']; subst. inversion L2 as [|? ? Hl2 L2']; subst.
    apply blank_line_split in Hl as (ind & d & l' & El & Hind & Hd).
    assert (Ed : drop_while is_space l = d :: l').
    { rewrite El, drop_while_all by exact Hind. apply drop_while_solid. exact Hd. }
    assert (ER : drop_while is_space (W ++ [LF] ++ l ++ after_line ls) =
                 (d :: l') ++ after_line ls).
    { rewrite drop_while_all by exact HW. cbn [app drop_while].
      change (is_space LF) with true. cbv iota.
      rewrite drop_while_app by (rewrite Ed; discriminate). rewrite Ed. reflexivity. }
    rewrite ER in E |- *. rewrite Ed.
    assert (Hdl : one_line (d :: l')).
    { rewrite El in Hl1. apply one_line_app in Hl1 as [_ Hl1]. exact Hl1. }
    assert (Hnext : sub_next export_re [] (after_line ls) = after_line ls).
    { apply sub_next_plain; auto using anchored_export_re.
      rewrite export_re_keyword. apply plain_lines_no_export. exact L2'. }
    rewrite (unlines_after (d :: l')).
    assert (Hm : match_at export_re false (last_of (Some c) m)
                   ((d :: l') ++ after_line ls) = None).
    { destruct ind as [|i ind].
      - simpl in El. rewrite <- El.
        destruct (at_bol (last_of (Some c) m)) eqn:B.
        + rewrite anchored_bol by auto using anchored_export_re.
          rewrite export_re_keyword. apply plain_no_export; auto using at_eol_after.
        + apply anchored_not_bol; auto using anchored_export_re.
      - apply anchored_not_bol; [exact anchored_export_re|].
        assert (Em : c :: m = ((kw_export ++ w) ++ W ++ [LF]) ++ i :: ind).
        { apply (app_inv_tail ((d :: l') ++ after_line ls)).
          change ((c :: m) ++ (d :: l') ++ after_line ls)
            with (c :: m ++ (d :: l') ++ after_line ls).
          rewrite <- E, El. repeat (rewrite <- !app_assoc; cbn [app]). reflexivity. }
        rewrite <- last_of_cons with (prev := prev), Em, last_of_app.
        apply one_line_not_bol; [|discriminate].
        rewrite El in Hl1. apply one_line_app in Hl1 as [Hl1 _]. exact Hl1. }
    rewrite (sub_line export_re anchored_export_re [] _ (d :: l') (after_line ls)
               Hdl (at_eol_after ls) Hm), Hnext.
    reflexivity.
Qed.

End BareExport.

(** The scan over lines at whose start the pattern does not match. *)
Lemma sub_lines_before p repl before rest result prev :
  anchored p -> Forall one_line before -> Forall (no_match_on p) before ->
  rest <> [] -> result <> [] ->
  (forall prev', at_bol prev' = true ->
     sub_from p repl prev' (unlines rest) 0 = unlines result) ->
  at_bol prev = true ->
  sub_from p repl prev (unlines (before ++ rest)) 0 = unlines (before ++ result).
Proof.
  intros Hp H1 H2 Hr Hres Hsub. revert prev.
  induction before as [|l before IH]; intros prev Hb; [apply Hsub; exact Hb|].
  inversion H1 as [|? ? Hl H1']; subst. inversion H2 as [|? ? Hn H2']; subst.
  cbn [app]. rewrite !unlines_after.
  rewrite sub_line; auto using at_eol_after.
  2:{ rewrite anchored_bol by auto. apply Hn. apply at_eol_after. }
  f_equal.
  destruct (before ++ rest) as [|x xs] eqn:E1.
  { apply app_eq_nil in E1 as [_ ->]. congruence. }
  destruct (before ++ result) as [|y ys] eqn:E2.
  { apply app_eq_nil in E2 as [_ ->]. congruence. }
  simpl. f_equal. apply IH; auto.
Qed.

(** X4: a line that holds [export] alone, with at most blanks after it, is
    joined to what follows.  The keyword goes together with the line break,
    the blank lines below and the indentation of the next line that is not
    blank; when only blank lines follow, they all go. *)
Theorem bare_export_joined (before following : list text) (w : text) :
  Forall one_line before -> Forall plain_line before ->
  forallb is_blank w = true ->
  Forall one_line following -> Forall plain_line following -> following <> [] ->
  remove_imports_exports (unlines (before ++ (kw_export ++ w) :: following)) =
  unlines (before ++ join_next following).
Proof.
  intros B1 B2 Hw F1 F2 Hf.
  assert (Hw' : one_line (kw_export ++ w)).
  { apply one_line_app. split; [reflexivity|]. apply blank_space in Hw as [_ H]. exact H. }
  assert (L : Forall one_line (before ++ (kw_export ++ w) :: following)).
  { apply Forall_app. split; [exact B1|]. constructor; auto. }
  assert (K : Forall (fun l => keyword_line kw_import l = false)
                (before ++ (kw_export ++ w) :: following)).
  { apply Forall_app. split; [|constructor; [reflexivity|]].
    - eapply Forall_impl; [exact B2|]. intros l [H _]. exact H.
    - eapply Forall_impl; [exact F2|]. intros l [H _]. exact H. }
  unfold remove_imports_exports.
  destruct import_re_keyword as [p1 E1]. destruct import_braces_re_keyword as [p2 E2].
  rewrite (sub_fixed import_re anchored_import_re); auto.
  2:{ rewrite E1. eapply Forall_impl; [exact K|]. intros l Hl.
      apply keyword_no_match; [reflexivity | exact Hl]. }
  rewrite (sub_fixed import_braces_re anchored_import_braces_re); auto.
  2:{ rewrite E2. eapply Forall_impl; [exact K|]. intros l Hl.
      apply keyword_no_match; [reflexivity | exact Hl]. }
  apply sub_lines_before.
  - exact anchored_export_re.
  - exact B1.
  - rewrite export_re_keyword. apply plain_lines_no_export. exact B2.
  - discriminate.
  - unfold join_next. destruct (skip_blank_lines following); discriminate.
  - intros prev' Hb. apply bare_export_sub; auto.
  - reflexivity.
Qed.

Lemma bare_export_joined_witness :
  let before := [codes "const a = 1;"] in
  let following := [[]; codes "  class B {}"; codes "run(B);"] in
  Forall one_line before /\ Forall plain_line before /\
  forallb is_blank (codes " ") = true /\
  Forall one_line following /\ Forall plain_line following /\ following <> [] /\
  remove_imports_exports (unlines (before ++ (kw_export ++ codes " ") :: following)) =
    unlines [codes "const a = 1;"; codes "class B {}"; codes "run(B);"].
Proof.
  assert (B1 : Forall one_line [codes "const a = 1;"]) by (repeat constructor).
  assert (B2 : Forall plain_line [codes "const a = 1;"]).
  { constructor; [split; reflexivity | constructor]. }
  assert (F1 : Forall one_line [[]; codes "  class B {}"; codes "run(B);"])
    by (repeat constructor).
  assert (F2 : Forall plain_line [[]; codes "  class B {}"; codes "run(B);"]).
  { repeat (constructor; [split; reflexivity|]). constructor. }
  assert (Hf : [[]; codes "  class B {}"; codes "run(B);"] <> []) by discriminate.
  exact (conj B1 (conj B2 (conj eq_refl (conj F1 (conj F2 (conj Hf
    (bare_export_joined _ _ (codes " ") B1 B2 eq_refl F1 F2 Hf))))))).
Defined.

(** * Import statements with a brace group over several lines *)

(** Two ways to cut a text at the first code point outside a class agree. *)
Lemma split_at_first (f : N -> bool) a b c d r r' :
  forallb f a = true -> forallb f b = true -> f c = false -> f d = false ->
  a ++ c :: r = b ++ d :: r' -> a = b /\ r = r'.
Proof.
  revert b. induction a as [|x a IH]; intros b Ha Hb Hc Hd E.
  - destruct b as [|y b].
    + simpl in E. injection E as _ E. auto.
    + simpl in E, Hb. injection E as -> _. apply andb_prop in Hb as [Hb _]. congruence.
  - simpl in Ha. apply andb_prop in Ha as [Hx Ha].
    destruct b as [|y b].
    + simpl in E. injection E as -> _. congruence.
    + simpl in E, Hb. injection E as -> E. apply andb_prop in Hb as [_ Hb].
      destruct (IH b Ha Hb Hc Hd E) as [-> ->]. auto.
Qed.

Lemma unlines_lines_app s ls : unlines (lines s ++ ls) = s ++ after_line ls.
Proof.
  induction s as [|c s IH].
  - simpl lines. cbn [app]. apply unlines_after.
  - cbn [lines]. destruct (N.eqb_spec c LF) as [->|Hc].
    + cbn [app]. rewrite unlines_after, app_nil_l.
      pose proof (lines_nonempty s) as Hn.
      destruct (lines s ++ ls) as [|x xs] eqn:E.
      { apply app_eq_nil in E as [E _]. congruence. }
      unfold after_line at 1. rewrite IH. reflexivity.
    + destruct (lines s) as [|l ls'] eqn:E; [destruct (lines_nonempty s E)|].
      cbn [app]. rewrite unlines_after. cbn [app] in IH. rewrite unlines_after in IH.
      cbn [app]. rewrite IH. reflexivity.
Qed.

Lemma unlines_lines_middle before s after :
  unlines (before ++ s :: after) = unlines (before ++ lines s ++ after).
Proof.
  induction before as [|l before IH].
  - cbn [app]. rewrite unlines_lines_app. apply unlines_after.
  - cbn [app]. rewrite !unlines_after. f_equal.
    pose proof (lines_nonempty s) as Hn.
    destruct (before ++ s :: after) as [|x xs] eqn:E1.
    { apply app_eq_nil in E1 as [_ E1]. discriminate. }
    destruct (before ++ lines s ++ after) as [|y ys] eqn:E2.
    { apply app_eq_nil in E2 as [_ E2]. apply app_eq_nil in E2 as [E2 _]. congruence. }
    unfold after_line. rewrite IH. reflexivity.
Qed.

Lemma brace_import_derives stmt prev R :
  brace_import stmt -> at_bol prev = true -> at_eol R = true ->
  derives import_braces_re prev (stmt ++ R) R.
Proof.
  intros [sp1 group sp2 sp3 q1 path q2 semi sp4 N1 H1 Hg N2 H2 N3 H3 Hq1 Hp Hq2 Hs H4]
    Hbol HR.
  apply blank_space in H1 as [H1 _]. apply blank_space in H2 as [H2 _].
  apply blank_space in H3 as [H3 _]. apply blank_space in H4 as [H4 _].
  rewrite import_braces_re_parts. cbn [derives]. split; [exact Hbol|].
  apply derives_literal. eexists. split; [symmetry; apply app_assoc|].
  cbn [derives spaces1]. eexists sp1, _. split; [symmetry; apply app_assoc|].
  split; [exact H1|]. split; [destruct sp1; [congruence | simpl; lia]|]. split; [exact I|].
  cbn [derives]. eexists 123%N, _. split; [reflexivity|]. split; [reflexivity|].
  eexists group, _. split; [symmetry; apply app_assoc|].
  split; [exact Hg|]. split; [lia|]. split; [exact I|].
  eexists 125%N, _. split; [reflexivity|]. split; [reflexivity|].
  cbn [derives spaces1]. eexists sp2, _. split; [symmetry; apply app_assoc|].
  split; [exact H2|]. split; [destruct sp2; [congruence | simpl; lia]|]. split; [exact I|].
  apply derives_literal. eexists. split; [symmetry; apply app_assoc|].
  unfold quoted_path. cbn [derives spaces1].
  eexists sp3, _. split; [symmetry; apply app_assoc|].
  split; [exact H3|]. split; [destruct sp3; [congruence | simpl; lia]|]. split; [exact I|].
  cbn [derives]. eexists q1, _. split; [reflexivity|]. split; [exact Hq1|].
  cbn [derives lazy_any]. eexists path, _. split; [symmetry; apply app_assoc|].
  split; [exact Hp|]. split; [lia|]. split; [exact I|].
  cbn [derives]. eexists q2, _. split; [reflexivity|]. split; [exact Hq2|].
  cbn [derives opt_semicolon]. eexists semi, _.
  split; [symmetry; apply app_assoc|].
  split; [destruct Hs as [-> | ->]; reflexivity|].
  split; [lia|]. split; [destruct Hs as [-> | ->]; simpl; lia|].
  cbn [derives spaces0]. eexists sp4, R. split; [reflexivity|].
  split; [exact H4|]. split; [lia|]. split; [exact I|].
  cbn [derives]. auto.
Qed.

(** The head of the second pattern on such a statement: the group is taken
    whole, and the head ends on the line of the closing brace. *)
Lemma brace_import_head stmt prev R s' :
  brace_import stmt -> at_eol R = true ->
  derives import_braces_head prev (stmt ++ R) s' ->
  exists u, one_line u /\ s' = u ++ R.
Proof.
  intros [sp1 group sp2 sp3 q1 path q2 semi sp4 N1 H1 Hg N2 H2 N3 H3 Hq1 Hp Hq2 Hs H4]
    HeR M.
  apply blank_space in H1 as [H1 _]. apply blank_space in H2 as [H2 _].
  apply blank_space in H3 as [H3 L3]. apply blank_space in H4 as [H4 L4].
  unfold import_braces_head in M.
  apply derives_import_prefix in M as (w1 & s2 & E & Hw1 & _ & M).
  rewrite <- app_assoc in E. apply app_inv_head in E.
  cbn [derives] in M. destruct M as (c & s3 & -> & Hc & M).
  apply N.eqb_eq in Hc. subst c.
  rewrite <- app_assoc in E. cbn [app] in E.
  apply (split_at_first is_space) in E as [<- <-]; auto.
  destruct M as (x & s4 & E & Hx & _ & _ & c & s5 & -> & Hc & M).
  apply N.eqb_eq in Hc. subst c.
  rewrite <- app_assoc in E. cbn [app] in E. symmetry in E.
  apply (split_at_first (not_char 125%N)) in E as [-> ->]; auto.
  cbn [derives spaces1] in M. destruct M as (w2 & s6 & E & Hw2 & _ & _ & M).
  pose proof (proj1 (derives_literal _ _ _ _ _) M) as (s7 & -> & _).
  change kw_from with (102%N :: codes "rom") in E.
  rewrite <- !app_assoc in E. cbn [app] in E. symmetry in E.
  apply (split_at_first is_space) in E as [-> E]; auto.
  set (u := sp3 ++ q1 :: path ++ q2 :: semi ++ sp4).
  assert (Hu : one_line (kw_from ++ u)).
  { apply is_quote_solid in Hq1 as [Hq1 _]. apply is_quote_solid in Hq2 as [Hq2 _].
    unfold one_line, u. repeat (rewrite ?forallb_app; cbn [forallb]).
    rewrite L3, Hq1, Hp, Hq2, L4. destruct Hs as [-> | ->]; reflexivity. }
  apply app_inv_head in E. subst s7.
  replace (kw_from ++ sp3 ++ q1 :: (path ++ q2 :: semi ++ sp4) ++ R)
    with ((kw_from ++ u) ++ R) in M
    by (unfold u; repeat (rewrite <- !app_assoc; cbn [app]); reflexivity).
  apply from_clause_on_line in M
    as [(u3 & E3 & Hs3)|(a & q & sm & u8 & _ & _ & _ & Hu8 & ->)]; auto.
  - exfalso. apply app_inv_head in E3. subst u3. unfold u in Hs3.
    rewrite forallb_app in Hs3. apply andb_prop in Hs3 as [_ Hs3].
    simpl in Hs3. apply is_quote_solid in Hq1 as [_ Hq1]. rewrite Hq1 in Hs3. discriminate.
  - eauto.
Qed.

Lemma brace_import_match stmt prev ls :
  brace_import stmt -> at_bol prev = true -> Forall one_line ls ->
  match_at import_braces_re false prev (stmt ++ after_line ls) =
  Some (after_line (skip_blank_lines ls)).
Proof.
  intros Hs Hb Hl.
  destruct (match_at_complete import_braces_re prev (stmt ++ after_line ls) (after_line ls))
    as [r Hr].
  { apply brace_import_derives; auto using at_eol_after. }
  rewrite Hr. rewrite <- (last_eol_after ls Hl).
  unfold match_at in Hr. rewrite import_braces_re_head in Hr.
  apply run_app_sound in Hr as (s' & prev' & Hd & Hk).
  apply brace_import_head in Hd as (u & Hu & ->); auto using at_eol_after.
  change (max_repeat is_space (run [At_end_line] (fun _ r => Some r)) 0 None prev'
            (u ++ after_line ls) = Some r) in Hk.
  rewrite spaces_to_eol in Hk. symmetry. eapply last_eol_line; eauto.
Qed.

(** The first line of the statement is no match of the first pattern. *)
Lemma open_line_no_import l :
  one_line l -> starts_with kw_import l = true -> occurs kw_from l = false ->
  (exists d l3, drop_while is_space (drop 6 l) = d :: l3) ->
  no_match_on import_re l.
Proof.
  intros Hl Hk Ho (d & l3 & D) r Hr.
  destruct (match_at import_re false None (l ++ r)) as [r'|] eqn:M; [exfalso | reflexivity].
  apply match_at_sound in M. rewrite import_re_parts in M.
  apply derives_import_prefix in M as (w1 & s2 & E & Hw1 & _ & M).
  cbn [derives lazy_any] in M. destruct M as (x & s3 & -> & Hx & _ & _ & M).
  apply derives_literal in M as (s4 & -> & _).
  apply starts_with_spec in Hk as [l' ->].
  change (drop 6 (kw_import ++ l')) with l' in D.
  rewrite <- app_assoc in E. apply app_inv_head in E.
  eapply broken_import_spaces in E as (u & -> & E); eauto.
  symmetry in E. apply line_step in E as (u2 & -> & E); auto.
  symmetry in E. apply line_step in E as (u3 & -> & E); auto.
  rewrite !app_assoc, <- (app_assoc _ kw_from u3), occurs_app in Ho. discriminate.
Qed.

Lemma brace_import_first_line stmt first others :
  brace_import stmt -> lines stmt = first :: others ->
  starts_with kw_import first = true /\
  exists d l3, drop_while is_space (drop 6 first) = d :: l3.
Proof.
  intros [sp1 group sp2 sp3 q1 path q2 semi sp4 N1 H1 Hg _ _ _ _ _ _ _ _ _] E.
  set (T := group ++ 125%N :: sp2 ++ kw_from ++ sp3 ++ q1 :: path ++ q2 :: semi ++ sp4) in *.
  assert (L : forall a t, forallb not_newline a = true ->
            exists l ls, lines (a ++ t) = (a ++ l) :: ls /\ lines t = l :: ls).
  { intros a t Ha. destruct (lines t) as [|l ls] eqn:Et; [destruct (lines_nonempty t Et)|].
    exists l, ls. split; [|reflexivity].
    induction a as [|c a IH]; [exact Et|].
    simpl in Ha. apply andb_prop in Ha as [Hc Ha]. cbn [app lines].
    unfold not_newline in Hc. destruct (c =? LF)%N; [discriminate|].
    rewrite (IH Ha). reflexivity. }
  apply blank_space in H1 as [S1 L1].
  destruct (L (kw_import ++ sp1 ++ [123%N]) T) as (l & ls & E1 & _).
  { rewrite !forallb_app, L1. reflexivity. }
  replace (kw_import ++ sp1 ++ 123%N :: T) with ((kw_import ++ sp1 ++ [123%N]) ++ T) in E
    by (repeat (rewrite <- !app_assoc; cbn [app]); reflexivity).
  rewrite E1 in E. apply (f_equal (hd [])) in E. cbn [hd] in E. subst first.
  split; [apply starts_with_spec; rewrite <- app_assoc; eauto|].
  rewrite <- !app_assoc.
  change (drop 6 (kw_import ++ sp1 ++ [123%N] ++ l)) with (sp1 ++ [123%N] ++ l).
  rewrite (drop_while_all _ _ _ S1). exists 123%N, l. reflexivity.
Qed.

Lemma brace_import_sub stmt after prev :
  brace_import stmt -> Forall one_line after -> Forall plain_line after ->
  at_bol prev = true ->
  sub_from import_braces_re [] prev (unlines (stmt :: after)) 0 =
  unlines ([] :: skip_blank_lines after).
Proof.
  intros Hs A1 A2 Hb. rewrite unlines_after.
  destruct (sub_match import_braces_re anchored_import_braces_re [] _ _ _
              (brace_import_match stmt prev after Hs Hb A1)) as (c & m & E & ->).
  rewrite app_nil_l, sub_at_eol by auto using anchored_import_braces_re, at_eol_after.
  rewrite unlines_after, app_nil_l.
  destruct (skip_blank_lines_suffix after) as [pre Hpre].
  rewrite Hpre in A1, A2.
  apply Forall_app in A1 as [_ A1]. apply Forall_app in A2 as [_ A2].
  destruct import_braces_re_keyword as [p2 E2].
  apply sub_next_plain; [exact anchored_import_braces_re | exact A1|].
  rewrite E2. apply plain_lines_no_import. exact A2.
Qed.

(** X12: an import statement whose brace group runs over several lines is
    removed as a whole by the second substitution, together with the blank
    lines right after it, and leaves one empty line; the lines around it,
    which begin with no keyword, are kept. *)
Theorem brace_import_removed (before after : list text) (stmt : text) :
  Forall one_line before -> Forall plain_line before ->
  brace_import stmt -> spread_over_lines stmt ->
  Forall one_line after -> Forall plain_line after ->
  remove_imports_exports (unlines (before ++ stmt :: after)) =
  unlines (before ++ [] :: skip_blank_lines after).
Proof.
  intros B1 B2 Hs Hsp A1 A2.
  destruct import_re_keyword as [p1 E1]. destruct import_braces_re_keyword as [p2 E2].
  assert (S1 : sub import_re [] (unlines (before ++ stmt :: after)) =
               unlines (before ++ stmt :: after)).
  { rewrite unlines_lines_middle.
    unfold spread_over_lines in Hsp.
    pose proof (lines_one_line stmt) as L.
    destruct (lines stmt) as [|first others] eqn:El; [destruct Hsp|].
    destruct Hsp as [Ho Hp]. inversion L as [|? ? Lf Lo]; subst.
    destruct (brace_import_first_line stmt first others Hs El) as [Hk Hd].
    apply (sub_fixed import_re anchored_import_re).
    - apply Forall_app. split; [exact B1|]. apply Forall_app. split; [exact L | exact A1].
    - apply Forall_app. split; [rewrite E1; apply plain_lines_no_import; exact B2|].
      apply Forall_app. split; [|rewrite E1; apply plain_lines_no_import; exact A2].
      constructor; [apply open_line_no_import; auto|].
      rewrite E1. apply plain_lines_no_import. exact Hp. }
  assert (K : Forall plain_line (before ++ [] :: skip_blank_lines after) /\
              Forall one_line (before ++ [] :: skip_blank_lines after)).
  { destruct (skip_blank_lines_suffix after) as [pre Hpre].
    pose proof A1 as A1'. pose proof A2 as A2'. rewrite Hpre in A1', A2'.
    apply Forall_app in A1' as [_ A1']. apply Forall_app in A2' as [_ A2'].
    split; apply Forall_app; split; auto; constructor; auto using plain_nil.
    reflexivity. }
  destruct K as [K1 K2].
  unfold remove_imports_exports. rewrite S1. unfold sub at 2.
  rewrite (sub_lines_before import_braces_re [] before (stmt :: after)
             ([] :: skip_blank_lines after) None anchored_import_braces_re B1).
  - apply (sub_fixed export_re anchored_export_re); [exact K2|].
    rewrite export_re_keyword. apply plain_lines_no_export. exact K1.
  - rewrite E2. apply plain_lines_no_import. exact B2.
  - discriminate.
  - discriminate.
  - intros prev' Hb. apply brace_import_sub; auto.
  - reflexivity.
Qed.

Lemma brace_import_removed_witness :
  let before := [codes "// entry"] in
  let stmt := unlines [codes "import {"; codes "  a,"; codes "  b"; codes "} from './ab.js';"] in
  let after := [[]; codes "run(a, b);"] in
  Forall one_line before /\ Forall plain_line before /\
  brace_import stmt /\ spread_over_lines stmt /\
  Forall one_line after /\ Forall plain_line after /\
  remove_imports_exports (unlines (before ++ stmt :: after)) =
    unlines [codes "// entry"; []; codes "run(a, b);"].
Proof.
  assert (B1 : Forall one_line [codes "// entry"]) by (repeat constructor).
  assert (B2 : Forall plain_line [codes "// entry"]).
  { constructor; [split; reflexivity | constructor]. }
  assert (Hs : brace_import
      (unlines [codes "import {"; codes "  a,"; codes "  b"; codes "} from './ab.js';"])).
  { exact (Brace_import (codes " ") (LF :: codes "  a," ++ LF :: codes "  b" ++ [LF])
             (codes " ") (codes " ") SQUOTE (codes "./ab.js") SQUOTE [59%N] []
             ltac:(discriminate) eq_refl eq_refl ltac:(discriminate) eq_refl
             ltac:(discriminate) eq_refl eq_refl eq_refl eq_refl
             (or_intror eq_refl) eq_refl). }
  assert (Hsp : spread_over_lines
      (unlines [codes "import {"; codes "  a,"; codes "  b"; codes "} from './ab.js';"])).
  { split; [reflexivity|]. repeat (constructor; [split; reflexivity|]). constructor. }
  assert (A1 : Forall one_line [[]; codes "run(a, b);"]) by (repeat constructor).
  assert (A2 : Forall plain_line [[]; codes "run(a, b);"]).
  { repeat (constructor; [split; reflexivity|]). constructor. }
  exact (conj B1 (conj B2 (conj Hs (conj Hsp (conj A1 (conj A2
    (brace_import_removed _ _ _ B1 B2 Hs Hsp A1 A2))))))).
Defined.

(** * Base names and module names *)

Lemma take_while_stop f a c b :
  forallb f a = true -> f c = false -> take_while f (a ++ c :: b) = a.
Proof.
  intros Ha Hc. induction a as [|x a IH]; simpl in *.
  - rewrite Hc. reflexivity.
  - apply andb_prop in Ha as [-> Ha]. rewrite (IH Ha). reflexivity.
Qed.

Lemma take_while_all f a : forallb f a = true -> take_while f a = a.
Proof.
  intros Ha. induction a as [|x a IH]; simpl in *; [reflexivity|].
  apply andb_prop in Ha as [-> Ha]. rewrite (IH Ha). reflexivity.
Qed.

(** The base name of a path that has no slash is the path; after a
    directory and a slash it is what follows. *)
Lemma basename_no_slash name :
  forallb (not_char 47) name = true -> basename name = name.
Proof.
  intros H. unfold basename.
  rewrite take_while_all by (rewrite forallb_rev; exact H). apply rev_involutive.
Qed.

Lemma basename_in_directory dir name :
  forallb (not_char 47) name = true -> basename (dir ++ 47%N :: name) = name.
Proof.
  intros H. unfold basename.
  rewrite rev_app_distr. simpl. rewrite <- app_assoc. simpl.
  rewrite take_while_stop; [apply rev_involutive | rewrite forallb_rev; exact H | reflexivity].
Qed.

Lemma starts_with_extension c name :
  starts_with [46; 106; 115]%N (c :: name) = false ->
  starts_with [46; 106; 115]%N (c :: name ++ [46; 106; 115]%N) = false.
Proof.
  destruct name as [|d [|e name]]; cbn [starts_with app]; intros Hs.
  - destruct (c =? 46)%N; reflexivity.
  - destruct (c =? 46)%N, (d =? 106)%N; reflexivity.
  - exact Hs.
Qed.

Lemma replace_extension name :
  occurs (codes ".js") name = false ->
  replace_from (codes ".js") [] 0 (name ++ codes ".js") = name.
Proof.
  change (codes ".js") with [46; 106; 115]%N.
  induction name as [|c name IH]; intros H.
  - reflexivity.
  - cbn [occurs] in H. apply orb_false_elim in H as [Hs Ho].
    change ((c :: name) ++ [46; 106; 115]%N) with (c :: name ++ [46; 106; 115]%N).
    cbn [replace_from].
    rewrite (starts_with_extension _ _ Hs), (IH Ho). reflexivity.
Qed.

Section Names.

Variable unicode_upper : N -> text.

(** X7: for a module path whose base name holds [.js] as its extension and
    nowhere else, the display name is the base name without the extension,
    whatever the directory. *)
Theorem module_name_strips_extension (dir name : text) :
  forallb (not_char 47) name = true ->
  occurs (codes ".js") name = false ->
  module_name (name ++ codes ".js") = name /\
  module_name (dir ++ 47%N :: name ++ codes ".js") = name.
Proof.
  intros Hs Ho.
  assert (Hn : forallb (not_char 47) (name ++ codes ".js") = true).
  { rewrite forallb_app, Hs. reflexivity. }
  unfold module_name.
  rewrite (basename_no_slash _ Hn), (basename_in_directory dir _ Hn).
  split; apply (replace_extension _ Ho).
Qed.

(** X8: the name comment of a module block is made from the base name
    alone: two modules with the same file name in different directories get
    the same lines before their content. *)
Theorem same_base_name_same_label (dir1 dir2 name content1 content2 : text) :
  forallb (not_char 47) name = true ->
  take 3 (module_items unicode_upper (dir1 ++ 47%N :: name) content1) =
  take 3 (module_items unicode_upper (dir2 ++ 47%N :: name) content2).
Proof.
  intros Hs. unfold module_items, module_name. cbn [take].
  rewrite !(basename_in_directory _ _ Hs). reflexivity.
Qed.

End Names.

Lemma module_name_strips_extension_witness :
  forallb (not_char 47) (codes "UIManager") = true /\
  occurs (codes ".js") (codes "UIManager") = false /\
  module_name (codes "UIManager.js") = codes "UIManager" /\
  module_name (codes "src/ui/UIManager.js") = codes "UIManager".
Proof.
  split; [reflexivity|]. split; [reflexivity|].
  exact (module_name_strips_extension (codes "src/ui") (codes "UIManager") eq_refl eq_refl).
Defined.

Lemma same_base_name_same_label_witness :
  forallb (not_char 47) (codes "index.js") = true /\
  take 3 (module_items (fun c => [c]) (codes "src/ui/index.js") (codes "a")) =
  take 3 (module_items (fun c => [c]) (codes "src/utils/index.js") (codes "b")).
Proof.
  split; [reflexivity|].
  exact (same_base_name_same_label (fun c => [c]) (codes "src/ui") (codes "src/utils")
           (codes "index.js") (codes "a") (codes "b") eq_refl).
Defined.

(** * The content of a module block *)

Lemma drop_while_head f s c s' : drop_while f s = c :: s' -> f c = false.
Proof.
  induction s as [|x s IH]; simpl; [discriminate|].
  destruct (f x) eqn:E; [exact IH|]. intros H. injection H as <- _. exact E.
Qed.

Lemma drop_while_suffix f s : exists a, s = a ++ drop_while f s.
Proof.
  induction s as [|x s [a IH]]; simpl.
  - exists []. reflexivity.
  - destruct (f x).
    + exists (x :: a). simpl. rewrite <- IH. reflexivity.
    + exists []. reflexivity.
Qed.

Lemma strip_ends s :
  (forall c s', strip s = c :: s' -> is_space c = false) /\
  (forall c, last (strip s) = Some c -> is_space c = false).
Proof.
  unfold strip. split.
  - intros c s' H.
    destruct (drop_while_suffix is_space (rev (drop_while is_space s))) as [a Ha].
    set (X := drop_while is_space (rev (drop_while is_space s))) in *.
    apply (f_equal (@rev N)) in Ha. rewrite rev_involutive, rev_app_distr, H in Ha.
    simpl in Ha. exact (drop_while_head _ _ _ _ Ha).
  - intros c H.
    destruct (drop_while is_space (rev (drop_while is_space s))) as [|x X] eqn:E.
    + discriminate H.
    + simpl in H. rewrite last_snoc in H. injection H as <-.
      exact (drop_while_head _ _ _ _ E).
Qed.

Lemma strip_blank s : forallb is_space s = true -> strip s = [].
Proof.
  intros H. unfold strip. rewrite <- (app_nil_r s), (drop_while_all _ _ _ H). reflexivity.
Qed.


Lemma blank_text_lines t :
  forallb is_space t = true -> Forall (fun l => blank_line l = true) (lines t).
Proof.
  induction t as [|c t IH]; intros H; [repeat constructor|].
  simpl in H. apply andb_prop in H as [Hc H]. specialize (IH H).
  cbn [lines]. destruct (c =? LF)%N; [constructor; [reflexivity | exact IH]|].
  destruct (lines t) as [|l ls]; [repeat constructor; simpl; rewrite Hc; reflexivity|].
  inversion IH as [|? ? Hl IH']; subst. constructor; [|exact IH'].
  unfold blank_line in *. simpl. rewrite Hc, Hl. reflexivity.
Qed.

Lemma blank_line_plain l : blank_line l = true -> plain_line l.
Proof.
  destruct l as [|c l]; [intros _; apply plain_nil|].
  unfold blank_line. simpl. intros H. apply andb_prop in H as [Hc _].
  unfold plain_line, keyword_line.
  assert (Hi : starts_with kw_import (c :: l) = false).
  { change kw_import with (105%N :: codes "mport"). cbn [starts_with].
    destruct (N.eqb_spec c 105) as [->|_]; [discriminate Hc | reflexivity]. }
  assert (He : starts_with kw_export (c :: l) = false).
  { change kw_export with (101%N :: codes "xport"). cbn [starts_with].
    destruct (N.eqb_spec c 101) as [->|_]; [discriminate Hc | reflexivity]. }
  rewrite Hi, He. split; reflexivity.
Qed.

Section Blocks.

Variable unicode_upper : N -> text.

(** X9: the content of a module block never begins or ends with whitespace,
    whatever the file holds. *)
Theorem block_content_trimmed (module_path content : text) :
  exists body,
    module_items unicode_upper module_path content !! 3 = Some body /\ trimmed body.
Proof.
  exists (strip (remove_imports_exports content)). split; [reflexivity|].
  destruct (strip_ends (remove_imports_exports content)) as [H1 H2]. split.
  - destruct (strip (remove_imports_exports content)) as [|c s] eqn:E; [exact I|].
    simpl. eapply H1. reflexivity.
  - destruct (last (strip (remove_imports_exports content))) as [c|] eqn:E; [|exact I].
    apply H2. reflexivity.
Qed.

(** X10: a module file that is empty or holds whitespace only still gets its
    block: the dividers and the name comment, with an empty content. *)
Theorem blank_module_block (module_path content : text) :
  forallb is_space content = true ->
  module_block unicode_upper (module_path, content) =
  module_block unicode_upper (module_path, []) /\
  module_items unicode_upper module_path content !! 3 = Some [].
Proof.
  intros H.
  assert (E : strip (remove_imports_exports content) = []).
  { rewrite <- (unlines_lines content) at 1.
    rewrite plain_lines_fixed, unlines_lines.
    - apply strip_blank. exact H.
    - apply lines_one_line.
    - eapply Forall_impl; [apply blank_text_lines; exact H|].
      intros l. apply blank_line_plain. }
  unfold module_block, module_items. cbn [fst snd]. rewrite E. split; reflexivity.
Qed.

End Blocks.

Lemma blank_module_block_witness :
  forallb is_space (codes "  ") = true /\
  module_block (fun c => [c]) (codes "src/a.js", LF :: codes "  ") =
  module_block (fun c => [c]) (codes "src/a.js", []) /\
  module_items (fun c => [c]) (codes "src/a.js") (LF :: codes "  ") !! 3 = Some [].
Proof.
  split; [reflexivity|].
  exact (blank_module_block (fun c => [c]) (codes "src/a.js") (LF :: codes "  ") eq_refl).
Defined.


(** * Import statements at the head of a module *)

Lemma strip_leading W s : forallb is_space W = true -> strip (W ++ s) = strip s.
Proof. intros H. unfold strip. rewrite (drop_while_all _ _ _ H). reflexivity. Qed.

Lemma strip_after_line ls : strip (after_line ls) = strip (unlines ls).
Proof.
  destruct ls as [|l ls]; [reflexivity|].
  apply (strip_leading [LF]). reflexivity.
Qed.

Lemma blank_line_kept l :
  blank_line l = true -> keyword_line kw_import l = false /\ strip_export l = l.
Proof.
  intros B. destruct (blank_line_plain l B) as [Hi He]. split; [exact Hi|].
  unfold strip_export. unfold keyword_line in He.
  destruct (starts_with kw_export l) eqn:E; [|reflexivity].
  apply starts_with_spec in E as [l' ->]. discriminate B.
Qed.

(** The text of the cleaned lines, trimmed, does not depend on whether the
    lines come after an import statement. *)
Lemma cleaned_after_import ls :
  strip (unlines (map strip_export (clear_imports true ls))) =
  strip (unlines (map strip_export (clear_imports false ls))).
Proof.
  induction ls as [|l ls IH]; [reflexivity|].
  cbn [clear_imports andb]. destruct (blank_line l) eqn:B; [|reflexivity].
  destruct (blank_line_kept l B) as [K E]. rewrite K, IH. cbn [map]. rewrite E.
  rewrite unlines_after, strip_leading by exact B.
  symmetry. apply strip_after_line.
Qed.

Lemma cleaned_leading_imports imports rest :
  Forall import_statement imports ->
  strip (unlines (map strip_export (clear_imports false (imports ++ rest)))) =
  strip (unlines (map strip_export (clear_imports false rest))).
Proof.
  induction 1 as [|l imports Hl H IH]; [reflexivity|].
  cbn [app clear_imports andb]. rewrite (import_statement_keyword l Hl).
  cbn [map strip_export]. change (strip_export []) with (@nil N).
  rewrite unlines_after, app_nil_l, strip_after_line, cleaned_after_import.
  exact IH.
Qed.


(** The block of a module is made of what follows its leading import
    statements. *)
Lemma leading_imports_content imports rest :
  Forall import_statement imports -> Forall one_line rest ->
  Forall (fun l => import_statement l \/
            (keyword_line kw_import l = false /\ export_has_operand l = true)) rest ->
  strip (remove_imports_exports (unlines (imports ++ rest))) =
  strip (remove_imports_exports (unlines rest)).
Proof.
  intros Hi H1 H2.
  assert (L : Forall one_line (imports ++ rest)).
  { apply Forall_app. split; [|exact H1].
    eapply Forall_impl; [exact Hi|]. apply import_statement_line. }
  assert (K : Forall (fun l => import_statement l \/
            (keyword_line kw_import l = false /\ export_has_operand l = true))
            (imports ++ rest)).
  { apply Forall_app. split; [|exact H2].
    eapply Forall_impl; [exact Hi|]. auto. }
  rewrite (module_text_lines _ L K), (module_text_lines _ H1 H2).
  apply cleaned_leading_imports. exact Hi.
Qed.

Section LeadingImports.

Variable unicode_upper : N -> text.

(** X11: the import statements at the head of a module leave no trace in
    the bundle.  The block of the module is the one of the module without
    them, when the rest is made of one-line import statements and of lines
    on which an [export] keyword is followed by something else than
    whitespace. *)
Theorem leading_imports_leave_no_trace (module_path : text) (imports rest : list text) :
  Forall import_statement imports -> Forall one_line rest ->
  Forall (fun l => import_statement l \/
            (keyword_line kw_import l = false /\ export_has_operand l = true)) rest ->
  module_block unicode_upper (module_path, unlines (imports ++ rest)) =
  module_block unicode_upper (module_path, unlines rest).
Proof.
  intros Hi H1 H2. unfold module_block. cbn [fst snd].
  rewrite (leading_imports_content imports rest Hi H1 H2). reflexivity.
Qed.

End LeadingImports.

Lemma leading_imports_leave_no_trace_witness :
  let imports := [codes "import { a } from './a.js';"; codes "import B from './b.js'"] in
  let rest := [[]; codes "export class C extends B {}"] in
  Forall import_statement imports /\ Forall one_line rest /\
  Forall (fun l => import_statement l \/
            (keyword_line kw_import l = false /\ export_has_operand l = true)) rest /\
  module_block (fun c => [c]) (codes "src/c.js", unlines (imports ++ rest)) =
  module_block (fun c => [c]) (codes "src/c.js", unlines rest).
Proof.
  assert (Hi : Forall import_statement
      [codes "import { a } from './a.js';"; codes "import B from './b.js'"]).
  { constructor.
    { exact (Import_statement (codes " ") (codes "{ a } ") (codes " ") SQUOTE
               (codes "./a.js") SQUOTE [59%N] []
               ltac:(discriminate) eq_refl eq_refl ltac:(discriminate) eq_refl eq_refl
               eq_refl eq_refl (or_intror eq_refl) eq_refl). }
    constructor; [|constructor].
    exact (Import_statement (codes " ") (codes "B ") (codes " ") SQUOTE
             (codes "./b.js") SQUOTE [] []
             ltac:(discriminate) eq_refl eq_refl ltac:(discriminate) eq_refl eq_refl
             eq_refl eq_refl (or_introl eq_refl) eq_refl). }
  assert (H1 : Forall one_line [[]; codes "export class C extends B {}"])
    by (repeat constructor).
  assert (H2 : Forall (fun l => import_statement l \/
            (keyword_line kw_import l = false /\ export_has_operand l = true))
      [[]; codes "export class C extends B {}"]).
  { repeat (constructor; [right; split; reflexivity|]). constructor. }
  exact (conj Hi (conj H1 (conj H2
    (leading_imports_leave_no_trace (fun c => [c]) (codes "src/c.js") _ _ Hi H1 H2)))).
Defined.


(** * The layout of the bundle, and runs that fail *)

Lemma take_while_forallb f s : forallb f (take_while f s) = true.
Proof.
  induction s as [|c s IH]; [reflexivity|]. simpl.
  destruct (f c) eqn:E; [simpl; rewrite E; exact IH | reflexivity].
Qed.

Lemma strip_trim_of s : trim_of s (strip s).
Proof.
  exists (take_while is_space s),
         (rev (take_while is_space (rev (drop_while is_space s)))).
  split; [|split; [apply take_while_forallb|split]].
  - unfold strip.
    rewrite <- rev_app_distr, take_drop_while, rev_involutive, take_drop_while.
    reflexivity.
  - rewrite forallb_rev. apply take_while_forallb.
  - destruct (strip_ends s) as [H1 H2]. split.
    + destruct (strip s) as [|c s'] eqn:E; [exact I|]. simpl. eapply H1. reflexivity.
    + destruct (last (strip s)) as [c|] eqn:E; [|exact I]. apply H2. reflexivity.
Qed.

Section BundleLayout.

Variable unicode_upper : N -> text.

Lemma module_block_as_claimed (m : text * text) : block_as_claimed unicode_upper m.
Proof.
  exists (module_name m.1), (strip (remove_imports_exports m.2)).
  split; [reflexivity|]. split.
  - intros dir base E Hs Ho.
    assert (Hn : forallb (not_char 47) (base ++ codes ".js") = true)
      by (rewrite forallb_app, Hs; reflexivity).
    unfold module_name. destruct E as [-> | ->].
    + rewrite (basename_no_slash _ Hn). apply replace_extension. exact Ho.
    + rewrite (basename_in_directory dir _ Hn). apply replace_extension. exact Ho.
  - split; [apply strip_trim_of|].
    intros H.
    pose proof (module_text_lines _ (lines_one_line m.2) H) as E.
    rewrite unlines_lines in E. rewrite E. apply strip_trim_of.
Qed.

(** C7: when every listed module is on disk, the bundle is the header, a
    line feed, one block per module in the listed order (divider, upper-cased
    name comment, divider, blank line, transformed content, blank lines) and
    the bootstrap segment; it is written to the output path and the two
    summary lines are printed.  In every block the content is the text of the
    module after the substitutions, without whitespace at its two ends: for
    a module of one-line import statements and of lines on which [export] has
    an operand, the lines without the import statements, the blank lines
    below them and the [export] keywords.  For a path [name.js] or
    [dir/name.js] the name in the comment is [name] in upper case. *)
Theorem bundle_layout (modules : list (text * text)) (w : world) :
  on_disk (disk w) modules ->
  bundle_modules_of unicode_upper modules.*1 w =
  Some {| disk := <[OUTPUT_PATH := bundle_text unicode_upper modules]> (disk w);
          stdout := stdout w ++
            summary (length modules) (length (bundle_text unicode_upper modules)) |} /\
  Forall (block_as_claimed unicode_upper) modules.
Proof.
  intros H. split.
  - pose proof (bundle_with_gap unicode_upper modules [] [] w H
                  (Forall_nil_2 _) (Forall_nil_2 _)) as B.
    cbn [app map fmap list_fmap] in B. rewrite !app_nil_r in B.
    rewrite B, length_fmap. reflexivity.
  - apply Forall_forall. intros m _. apply module_block_as_claimed.
Qed.

End BundleLayout.

Lemma bundle_layout_witness :
  let a_js := codes "a.js" in
  let source := codes "export class A {}" in
  let w := World {[ a_js := source ]} [] in
  let panel_js := codes "src/ui/panel.js" in
  let panel := unlines [[]; codes "import { a } from './a.js';"; [];
                        codes "export class Panel {"; codes "  show() { return a; }";
                        codes "}"; codes "  "; []] in
  let w2 := World {[ panel_js := panel ]} [] in
  (on_disk (disk w) [(a_js, source)] /\
   bundle_modules_of (fun c => [c]) [a_js] w =
   Some {| disk := <[OUTPUT_PATH :=
                      HEADER ++ [LF] ++
                      ([LF] ++ DIVIDER ++ [LF] ++ codes "// A MODULE" ++ [LF] ++
                       DIVIDER ++ [LF] ++ [LF] ++ codes "class A {}" ++ [LF; LF; LF]) ++
                      BOOTSTRAP]> (disk w);
           stdout := summary 1 1566 |} /\
   occurs (codes "new AmazonScraperApp()") BOOTSTRAP = true) /\
  (on_disk (disk w2) [(panel_js, panel)] /\
   bundle_modules_of (fun c => [c]) [panel_js] w2 =
   Some {| disk := <[OUTPUT_PATH :=
                      HEADER ++ [LF] ++
                      ([LF] ++ DIVIDER ++ [LF] ++ codes "// PANEL MODULE" ++ [LF] ++
                       DIVIDER ++ [LF] ++ [LF] ++
                       unlines [codes "class Panel {"; codes "  show() { return a; }";
                                codes "}"] ++ [LF; LF; LF]) ++
                      BOOTSTRAP]> (disk w2);
           stdout := summary 1 1598 |}).
Proof.
  assert (H : on_disk ({[ codes "a.js" := codes "export class A {}" ]} : gmap text text)
                [(codes "a.js", codes "export class A {}")]).
  { constructor; [vm_compute; reflexivity | constructor]. }
  assert (H2 : on_disk
      ({[ codes "src/ui/panel.js" :=
            unlines [[]; codes "import { a } from './a.js';"; [];
                     codes "export class Panel {"; codes "  show() { return a; }";
                     codes "}"; codes "  "; []] ]} : gmap text text)
      [(codes "src/ui/panel.js",
        unlines [[]; codes "import { a } from './a.js';"; [];
                 codes "export class Panel {"; codes "  show() { return a; }";
                 codes "}"; codes "  "; []])]).
  { constructor; [vm_compute; reflexivity | constructor]. }
  split.
  - split; [exact H|]. split; [|vm_compute; reflexivity].
    exact (proj1 (bundle_layout (fun c => [c]) [(codes "a.js", codes "export class A {}")]
             (World {[ codes "a.js" := codes "export class A {}" ]} []) H)).
  - split; [exact H2|].
    exact (proj1 (bundle_layout (fun c => [c]) _ (World _ []) H2)).
Defined.

(** * A run against any file system *)

Section HostFacts.

Variable unicode_upper : N -> text.
Variable filesystem : Type.
Variable exists_on : filesystem -> text -> bool.
Variable read_on : filesystem -> text -> option text.
Variable write_on : filesystem -> text -> text -> filesystem * bool.

Local Abbreviation loop := (bundle_loop_on unicode_upper filesystem exists_on read_on).
Local Abbreviation found := (found_on filesystem exists_on read_on).
Local Abbreviation lost := (lost_on filesystem exists_on).
Local Abbreviation readable := (all_readable filesystem exists_on read_on).

Lemma bundle_loop_readable fs modules output printed :
  readable fs modules ->
  loop fs modules output printed =
  inl (output ++ flat_map (fun m => module_items unicode_upper m.1 m.2) (found fs modules),
       printed ++ map warning (lost fs modules)).
Proof.
  intros H. revert output printed.
  induction H as [|p modules Hp H IH]; intros output printed.
  - simpl. rewrite !app_nil_r. reflexivity.
  - cbn [bundle_loop_on found_on lost_on].
    destruct (exists_on fs p) eqn:E; cbn [negb].
    + destruct (Hp eq_refl) as [content Hc]. rewrite Hc, IH.
      cbn [flat_map fst snd]. rewrite app_assoc. reflexivity.
    + rewrite IH. cbn [map]. rewrite <- app_assoc. reflexivity.
Qed.

Lemma bundle_loop_raises fs before p after output printed :
  readable fs before -> exists_on fs p = true -> read_on fs p = None ->
  loop fs (before ++ p :: after) output printed =
  inr (printed ++ map warning (lost fs before)).
Proof.
  intros H He Hr. revert output printed.
  induction H as [|q before Hq H IH]; intros output printed.
  - simpl. rewrite He, Hr, app_nil_r. reflexivity.
  - cbn [app bundle_loop_on lost_on].
    destruct (exists_on fs q) eqn:E; cbn [negb].
    + destruct (Hq eq_refl) as [content Hc]. rewrite Hc. apply IH.
    + rewrite IH. cbn [map]. rewrite <- app_assoc. reflexivity.
Qed.

(** X5: a run against any file system in which every listed path that
    exists can be read.  One warning is printed for each listed path that
    does not exist, in the order of the list; then one write is asked for,
    at the output path, of the header, the blocks of the listed modules that
    exist, in the order of the list, and the bootstrap segment.  When the
    write goes through, the two summary lines are printed, with the number
    of listed paths and the length of the text; when it fails, the run ends
    with the exception and prints no summary. *)
Theorem bundle_outcome (modules : list text) (fs : filesystem) (printed : list text) :
  readable fs modules ->
  bundle_modules_on unicode_upper filesystem exists_on read_on write_on modules fs printed =
  let bundle := bundle_text unicode_upper (found fs modules) in
  let warnings := map warning (lost fs modules) in
  let answer := write_on fs OUTPUT_PATH bundle in
  if answer.2
  then Returned answer.1
         (printed ++ warnings ++ summary (length modules) (length bundle))
  else Raised answer.1 (printed ++ warnings).
Proof.
  intros H. unfold bundle_modules_on. rewrite (bundle_loop_readable _ _ _ _ H).
  rewrite join_output. cbv zeta.
  destruct (write_on fs OUTPUT_PATH _) as [fs' [|]]; cbn [fst snd].
  - rewrite <- app_assoc. reflexivity.
  - reflexivity.
Qed.

(** X13: a listed path that exists and cannot be read (a directory, a file
    that may not be read or that is not UTF-8) ends the run with the
    exception.  Nothing is written: the file system is as before the run,
    and what has been printed are the warnings for the missing paths listed
    before it. *)
Theorem unreadable_module_aborts (before after : list text) (p : text)
    (fs : filesystem) (printed : list text) :
  readable fs before -> exists_on fs p = true -> read_on fs p = None ->
  bundle_modules_on unicode_upper filesystem exists_on read_on write_on
    (before ++ p :: after) fs printed =
  Raised fs (printed ++ map warning (lost fs before)).
Proof.
  intros H He Hr. unfold bundle_modules_on.
  rewrite (bundle_loop_raises _ _ _ _ _ _ H He Hr). reflexivity.
Qed.

End HostFacts.

(** The disk of the claims is the file system in which every path is missing
    or a text file that can be read, and every write goes through. *)
Lemma bundle_loop_on_some unicode_upper files modules output printed r :
  bundle_loop unicode_upper files modules output printed = Some r ->
  bundle_loop_on unicode_upper (gmap text text) path_exists read_file files
    modules output printed = inl r.
Proof.
  revert output printed. induction modules as [|p modules IH]; intros output printed.
  - simpl. intros E. injection E as <-. reflexivity.
  - cbn [bundle_loop_on bundle_loop].
    destruct (negb (path_exists files p)); [apply IH|].
    destruct (read_file files p) as [content|]; cbn [mbind option_bind];
      [apply IH | discriminate].
Qed.

Lemma bundle_modules_on_disk unicode_upper modules (w w' : world) :
  bundle_modules_of unicode_upper modules w = Some w' ->
  bundle_modules_on unicode_upper (gmap text text) path_exists read_file
    (fun fs path content => (<[path := content]> fs, true)) modules (disk w) (stdout w) =
  Returned (disk w') (stdout w').
Proof.
  unfold bundle_modules_of, bundle_modules_on.
  destruct (bundle_loop unicode_upper (disk w) modules [HEADER] (stdout w))
    as [[output printed]|] eqn:L; cbn [mbind option_bind]; [|discriminate].
  rewrite (bundle_loop_on_some _ _ _ _ _ _ L).
  intros E. injection E as <-. reflexivity.
Qed.

Lemma bundle_outcome_witness :
  let fs : gmap text node :=
    {[ codes "src/a.js" := Text_file (codes "export class A {}") ]} in
  let modules := [codes "src/missing.js"; codes "src/a.js"] in
  all_readable _ tree_exists tree_read fs modules /\
  bundle_modules_on (fun c => [c]) _ tree_exists tree_read tree_write modules fs [] =
  Returned
    (<[OUTPUT_PATH := Text_file
         (HEADER ++ [LF] ++
          ([LF] ++ DIVIDER ++ [LF] ++ codes "// A MODULE" ++ [LF] ++
           DIVIDER ++ [LF] ++ [LF] ++ codes "class A {}" ++ [LF; LF; LF]) ++
          BOOTSTRAP)]> fs)
    (codes "Warning: src/missing.js not found, skipping..." :: summary 2 1566).
Proof.
  assert (H : all_readable _ tree_exists tree_read
      ({[ codes "src/a.js" := Text_file (codes "export class A {}") ]} : gmap text node)
      [codes "src/missing.js"; codes "src/a.js"]).
  { constructor; [intros E; vm_compute in E; discriminate E|].
    constructor; [intros _; vm_compute; eauto | constructor]. }
  split; [exact H|].
  rewrite (bundle_outcome (fun c => [c]) _ tree_exists tree_read tree_write _ _ [] H).
  vm_compute. reflexivity.
Defined.

Lemma unreadable_module_aborts_witness :
  let fs : gmap text node :=
    {[ codes "src/a.js" := Text_file (codes "export class A {}");
       codes "src/utils" := Directory ]} in
  all_readable _ tree_exists tree_read fs [codes "src/missing.js"; codes "src/a.js"] /\
  tree_exists fs (codes "src/utils") = true /\
  tree_read fs (codes "src/utils") = None /\
  bundle_modules_on (fun c => [c]) _ tree_exists tree_read tree_write
    ([codes "src/missing.js"; codes "src/a.js"] ++ codes "src/utils" :: [codes "src/b.js"])
    fs [] =
  Raised fs [codes "Warning: src/missing.js not found, skipping..."].
Proof.
  assert (H : all_readable _ tree_exists tree_read
      ({[ codes "src/a.js" := Text_file (codes "export class A {}");
          codes "src/utils" := Directory ]} : gmap text node)
      [codes "src/missing.js"; codes "src/a.js"]).
  { constructor; [intros E; vm_compute in E; discriminate E|].
    constructor; [intros _; vm_compute; eauto | constructor]. }
  split; [exact H|]. split; [vm_compute; reflexivity|]. split; [vm_compute; reflexivity|].
  exact (unreadable_module_aborts (fun c => [c]) _ tree_exists tree_read tree_write
           _ [codes "src/b.js"] (codes "src/utils") _ [] H eq_refl eq_refl).
Defined.
